(** * LingoLens simulator (app.py): a shallow embedding and its properties

    The program is one Streamlit script, [app.py].  It holds two adapters,
    [get_tts_audio] and [analyze_image_for_words], and a page body that the
    framework re-executes from top to bottom on every interaction.

    Python values are embedded as the inductive [pyval]; text is a [string]
    holding the UTF-8 encoding of the Python [str].  Everything the script
    does is a computation in the monad [Py]: it threads the [Runtime]
    (session state, local files, the elements drawn so far, the requests sent
    to remote services) and ends in a value or in a raised exception.  The
    libraries the script calls into (PIL, the generative model, [json], the
    speech service) are the fields of a [World]. *)

From Stdlib Require Import String Ascii ZArith List Bool Floats Lia.
From stdpp Require Import base option gmap strings list.

Local Open Scope string_scope.
Local Set Warnings "-register-all".

(** ** Python values *)

Definition bytes := list Init.Byte.byte.

Inductive pyval : Type :=
| PNone
| PBool (b : bool)
| PInt (z : Z)
| PFloat (f : float)
| PStr (s : string)
| PBytes (b : bytes)
| PList (l : list pyval)
| PDict (d : list (string * pyval))
| PUploadedFile (data : bytes).

(** [bool(v)]: what an [if v:] tests. *)
Definition truthy (v : pyval) : bool :=
  match v with
  | PNone => false
  | PBool b => b
  | PInt z => negb (z =? 0)%Z
  | PFloat f => negb (PrimFloat.eqb f 0%float)
  | PStr s => negb (String.eqb s "")
  | PBytes b => match b with [] => false | _ => true end
  | PList l => match l with [] => false | _ => true end
  | PDict d => match d with [] => false | _ => true end
  | PUploadedFile _ => true
  end.

Definition is_none (v : pyval) : bool :=
  match v with PNone => true | _ => false end.

Definition is_list (v : pyval) : bool :=
  match v with PList _ => true | _ => false end.

(** ** UTF-8

    [bytes.decode('utf-8')] accepts the well-formed sequences: no overlong
    form, no surrogate, nothing above U+10FFFF. *)

Definition in_range (lo hi : N) (x : Init.Byte.byte) : bool :=
  ((lo <=? Byte.to_N x) && (Byte.to_N x <=? hi))%N.

(** The ranges of the bytes that must follow a lead byte. *)
Definition utf8_continuation (x : Init.Byte.byte) : option (list (N * N)) :=
  let n := Byte.to_N x in
  let c := (128, 191)%N in
  if (n <=? 127)%N then Some []
  else if in_range 194 223 x then Some [c]
  else if (n =? 224)%N then Some [(160, 191)%N; c]
  else if in_range 225 236 x then Some [c; c]
  else if (n =? 237)%N then Some [(128, 159)%N; c]
  else if in_range 238 239 x then Some [c; c]
  else if (n =? 240)%N then Some [(144, 191)%N; c; c]
  else if in_range 241 243 x then Some [c; c; c]
  else if (n =? 244)%N then Some [(128, 143)%N; c; c]
  else None.

Fixpoint utf8_valid_from (pending : list (N * N)) (b : bytes) : bool :=
  match b with
  | [] => match pending with [] => true | _ => false end
  | x :: b' =>
      match pending with
      | (lo, hi) :: rest => in_range lo hi x && utf8_valid_from rest b'
      | [] =>
          match utf8_continuation x with
          | Some rest => utf8_valid_from rest b'
          | None => false
          end
      end
  end.

Definition utf8_valid (b : bytes) : bool := utf8_valid_from [] b.

(** ** Exceptions *)

Inductive exn_class : Type :=
| KeyError | TypeError | AttributeError | ValueError
| JSONDecodeError            (* json.JSONDecodeError, a ValueError *)
| FileNotFoundError          (* an OSError *)
| PermissionError            (* an OSError *)
| StreamlitAPIException
| DuplicateElementKey        (* StreamlitDuplicateElementKey, a
                                StreamlitAPIException *)
| OtherException             (* any further subclass of Exception *)
| RerunException             (* raised by st.rerun(); a BaseException *)
| KeyboardInterrupt | SystemExit.

(** An exception: its class and its text.  The text is what the script
    prints of it with [str(e)]; for an exception the script never prints
    it names what the exception is about (the missing key, the refused
    widget key). *)
Record exn : Type := mk_exn { exn_cls : exn_class; exn_str : string }.

(** The three filters the script's [except] clauses use. *)
Definition is_Exception (e : exn) : bool :=
  match exn_cls e with
  | RerunException | KeyboardInterrupt | SystemExit => false
  | _ => true
  end.

Definition is_JSONDecodeError (e : exn) : bool :=
  match exn_cls e with JSONDecodeError => true | _ => false end.

Definition is_FileNotFoundError (e : exn) : bool :=
  match exn_cls e with FileNotFoundError => true | _ => false end.

Definition any_exn (e : exn) : bool := true.

Inductive outcome (A : Type) : Type :=
| Ret (a : A)
| Raise (e : exn).
Arguments Ret {A} a.
Arguments Raise {A} e.

(** [raises_only_Exception r]: [r] is a value or an [Exception]. *)
Definition raises_only_Exception {A} (r : outcome A) : Prop :=
  match r with Ret _ => True | Raise e => is_Exception e = true end.

(** ** Strings: [str.strip], [str.startswith], [str.endswith] *)

Definition str_of_codes (l : list nat) : string :=
  string_of_list_ascii (map ascii_of_nat l).

(** The UTF-8 encodings of the code points for which [str.isspace] holds:
    U+0009..U+000D, U+001C..U+0020, U+0085, U+00A0, U+1680, U+2000..U+200A,
    U+2028, U+2029, U+202F, U+205F, U+3000. *)
Definition whitespace : list string :=
  map str_of_codes
    ([ [9]; [10]; [11]; [12]; [13]; [28]; [29]; [30]; [31]; [32];
       [194; 133]; [194; 160]; [225; 154; 128] ]
     ++ map (fun k => [226; 128; 128 + k]) (seq 0 11)
     ++ [ [226; 128; 168]; [226; 128; 169]; [226; 128; 175];
          [226; 129; 159]; [227; 128; 128] ]).

Definition startswith (s p : string) : bool := String.prefix p s.

Definition str_rev (s : string) : string :=
  string_of_list_ascii (rev (list_ascii_of_string s)).

Definition endswith (s p : string) : bool :=
  String.prefix (str_rev p) (str_rev s).

Definition str_drop (n : nat) (s : string) : string :=
  String.substring n (String.length s - n) s.

Fixpoint lstrip_with (ws : list string) (fuel : nat) (s : string) : string :=
  match fuel with
  | O => s
  | S fuel' =>
      match List.find (fun w => String.prefix w s) ws with
      | Some w => lstrip_with ws fuel' (str_drop (String.length w) s)
      | None => s
      end
  end.

Definition lstrip (s : string) : string :=
  lstrip_with whitespace (String.length s) s.

Definition rstrip (s : string) : string :=
  str_rev (lstrip_with (map str_rev whitespace) (String.length s) (str_rev s)).

Definition strip (s : string) : string := rstrip (lstrip s).

Arguments strip : simpl never.
Arguments startswith : simpl never.
Arguments endswith : simpl never.

(** The characters of a [str], each as its own UTF-8 encoded [str]: a byte
    from 128 to 191 continues the character before it. *)
Definition is_continuation (a : ascii) : bool :=
  let n := nat_of_ascii a in (128 <=? n)%nat && (n <? 192)%nat.

Fixpoint utf8_chars_from (cur : string) (s : string) : list string :=
  match s with
  | EmptyString => match cur with EmptyString => [] | _ => [cur] end
  | String a rest =>
      if is_continuation a
      then utf8_chars_from (cur ++ String a EmptyString) rest
      else match cur with
           | EmptyString => utf8_chars_from (String a EmptyString) rest
           | _ => cur :: utf8_chars_from (String a EmptyString) rest
           end
  end.

Definition utf8_chars (s : string) : list string := utf8_chars_from "" s.

(** ** What the script calls into *)

(** [Image.open(io.BytesIO(b))] yields a lazy handle on the bytes. *)
Record Image : Type := { image_fp : bytes }.

(** The model's reply; reading [.text] can itself raise. *)
Record GenerateContentResponse : Type := { text : outcome string }.

Inductive SsmlVoiceGender : Type := NEUTRAL | MALE | FEMALE.
Inductive AudioEncoding : Type := LINEAR16 | MP3 | OGG_OPUS.

Record SynthesisInput : Type := { input_text : string }.

Record VoiceSelectionParams : Type :=
  { language_code : string; name : string; ssml_gender : SsmlVoiceGender }.

Record AudioConfig : Type :=
  { audio_encoding : AudioEncoding; speaking_rate : float; pitch : Z }.

Record SynthesizeSpeechResponse : Type := { audio_content : bytes }.

(** A request that leaves the process. *)
Inductive remote_call : Type :=
| GenerateContent (model prompt : string) (image : Image)
| SynthesizeSpeech (input : SynthesisInput) (voice : VoiceSelectionParams)
    (audio_config : AudioConfig).

Record World : Type := {
  secrets : gmap string string;
  Image_open : bytes -> outcome Image;
  generate_content : string -> string -> Image -> outcome GenerateContentResponse;
  json_loads : string -> outcome pyval;
  TextToSpeechClient : outcome unit;
  synthesize_speech :
    SynthesisInput -> VoiceSelectionParams -> AudioConfig ->
    outcome SynthesizeSpeechResponse;
  (** [str(v)] for a value that is not itself a [str]. *)
  py_str : pyval -> string;
}.

(** What a user did to the widgets before this run of the script. *)
Record Inputs : Type := {
  camera_photo : option bytes;        (* st.camera_input *)
  pressed : string -> bool;           (* st.button, by key, else by label *)
  typed_text : string;                (* st.text_input *)
}.

(** What the page shows. *)
Inductive ui_event : Type :=
| UTitle (s : string)
| USubheader (s : string)
| UCameraInput (label : string)
| UImage (data : bytes) (caption : string)
| UButton (label : string) (key : option string)
| UMarkdown (s : string)
| UInfo (s : string)
| UError (s : string)
| UAudio (data : pyval) (format : string)
| UChatMessage (role : pyval)
| UWrite (v : pyval)
| UTextInput (label : string).

Definition is_error (ev : ui_event) : bool :=
  match ev with UError _ => true | _ => false end.

Definition is_audio (ev : ui_event) : bool :=
  match ev with UAudio _ _ => true | _ => false end.

(** A local file, with whether this process may read and unlink it. *)
Record file : Type :=
  { f_data : bytes; f_readable : bool; f_removable : bool }.

(** What a run of the script works on.  [session_state] holds the fields
    the script itself reads and assigns; the entries the framework keeps
    there for keyed widgets are not part of it.  [view] is the page of the
    current run. *)
Record Runtime : Type := mk_runtime {
  session_state : gmap string pyval;
  files : gmap string file;
  view : list ui_event;                 (* oldest first *)
  remote_calls : list remote_call;      (* oldest first *)
}.

(** ** The monad of script computations *)

Definition Py (A : Type) : Type := Runtime -> outcome A * Runtime.

Definition ret {A} (a : A) : Py A := fun σ => (Ret a, σ).

Definition raise {A} (e : exn) : Py A := fun σ => (Raise e, σ).

Definition bind {A B} (m : Py A) (k : A -> Py B) : Py B :=
  fun σ => match m σ with
           | (Ret a, σ') => k a σ'
           | (Raise e, σ') => (Raise e, σ')
           end.

Declare Scope py_scope.
Delimit Scope py_scope with py.
Bind Scope py_scope with Py.
Notation "x <- m ;; k" := (bind m (fun x => k))
  (at level 100, m at next level, right associativity) : py_scope.
Notation "m ;;; k" := (bind m (fun _ => k))
  (at level 100, right associativity) : py_scope.
Local Open Scope py_scope.

(** An external call of the [World], lifted. *)
Definition lift {A} (r : outcome A) : Py A := fun σ => (r, σ).

(** [try: body / except C1: h1 / except C2: h2 ...]: the first clause whose
    class matches handles the exception; with none, it propagates. *)
Definition try_except {A} (body : Py A)
    (clauses : list ((exn -> bool) * (exn -> Py A))) : Py A :=
  fun σ => match body σ with
           | (Ret a, σ') => (Ret a, σ')
           | (Raise e, σ') =>
               match List.find (fun c => fst c e) clauses with
               | Some c => snd c e σ'
               | None => (Raise e, σ')
               end
           end.

(** [try: body / finally: fin]: [fin] runs on every path; an exception of
    [fin] replaces the result of [body]. *)
Definition try_finally {A} (body : Py A) (fin : Py unit) : Py A :=
  fun σ => let '(r, σ1) := body σ in
           match fin σ1 with
           | (Ret _, σ2) => (r, σ2)
           | (Raise e, σ2) => (Raise e, σ2)
           end.

Definition emit (ev : ui_event) : Py unit :=
  fun σ => (Ret tt, mk_runtime (session_state σ) (files σ)
                      (view σ ++ [ev]) (remote_calls σ)).

Definition record_call (c : remote_call) : Py unit :=
  fun σ => (Ret tt, mk_runtime (session_state σ) (files σ)
                      (view σ) (remote_calls σ ++ [c])).

Definition st_error (msg : string) : Py unit := emit (UError msg).
Definition st_info (msg : string) : Py unit := emit (UInfo msg).
Definition st_markdown (msg : string) : Py unit := emit (UMarkdown msg).
Definition st_audio (data : pyval) (format : string) : Py unit :=
  emit (UAudio data format).

(** [st.rerun()] stops the run; the framework starts the script again. *)
Definition st_rerun {A} : Py A := raise (mk_exn RerunException "").

(** The keys of the keyed buttons on the page, in drawing order. *)
Definition button_keys (evs : list ui_event) : list string :=
  omap (fun ev => match ev with UButton _ (Some k) => Some k | _ => None end)
       evs.

(** [key_taken k evs]: an element drawn in this run holds the key [k]. *)
Definition key_taken (k : string) (evs : list ui_event) : bool :=
  existsb (String.eqb k) (button_keys evs).

Definition duplicate_key (k : string) : exn := mk_exn DuplicateElementKey k.

(** A key names one element of a run: the framework refuses a second
    element with a key the page holds already. *)
Definition register_key (k : string) : Py unit :=
  fun σ => if key_taken k (view σ) then (Raise (duplicate_key k), σ)
           else (Ret tt, σ).

(** [st.button(label, key=key)]: draws the button and tells whether it was
    pressed; with a key that the page holds already it raises and draws
    nothing.  The buttons of the script that have no key have a label each
    of their own and are drawn once in a run. *)
Definition st_button (inp : Inputs) (label : string) (key : option string)
    : Py bool :=
  match key with
  | Some k =>
      register_key k ;;;
      emit (UButton label (Some k)) ;;;
      ret (pressed inp k)
  | None =>
      emit (UButton label None) ;;;
      ret (pressed inp label)
  end.

(** [st.chat_message(name)]: the name is a [str]; [None] is refused, and
    with a value of another type the call fails where it takes the name
    for a [str] ([name.lower()]). *)
Definition st_chat_message (name : pyval) : Py unit :=
  match name with
  | PStr _ => emit (UChatMessage name)
  | PNone => raise (mk_exn StreamlitAPIException "name")
  | _ => raise (mk_exn AttributeError "lower")
  end.

(** ** [st.session_state] *)

Definition ss_contains (field : string) : Py bool :=
  fun σ => (Ret (bool_decide (is_Some (session_state σ !! field))), σ).

Definition ss_get (field : string) : Py pyval :=
  fun σ => match session_state σ !! field with
           | Some v => (Ret v, σ)
           | None => (Raise (mk_exn AttributeError field), σ)
           end.

Definition ss_set (field : string) (v : pyval) : Py unit :=
  fun σ => (Ret tt, mk_runtime (<[field := v]> (session_state σ)) (files σ)
                      (view σ) (remote_calls σ)).

(** ** The [os] and file calls of the playback block *)

Definition os_path_exists (path : string) : Py bool :=
  fun σ => (Ret (bool_decide (is_Some (files σ !! path))), σ).

(** [open(path, 'rb')] followed by [.read()]. *)
Definition open_read (path : string) : Py bytes :=
  fun σ => match files σ !! path with
           | None => (Raise (mk_exn FileNotFoundError path), σ)
           | Some f =>
               if f_readable f then (Ret (f_data f), σ)
               else (Raise (mk_exn PermissionError path), σ)
           end.

Definition os_remove (path : string) : Py unit :=
  fun σ => match files σ !! path with
           | None => (Raise (mk_exn FileNotFoundError path), σ)
           | Some f =>
               if f_removable f
               then (Ret tt, mk_runtime (session_state σ)
                               (delete path (files σ)) (view σ)
                               (remote_calls σ))
               else (Raise (mk_exn PermissionError path), σ)
           end.

(** ** Subscripting, iteration and formatting of values *)

Fixpoint assoc_get (k : string) (d : list (string * pyval)) : option pyval :=
  match d with
  | [] => None
  | (k', v) :: d' => if String.eqb k k' then Some v else assoc_get k d'
  end.

(** [obj[key]] for a [str] key. *)
Definition subscript (obj : pyval) (key : string) : Py pyval :=
  match obj with
  | PDict d =>
      match assoc_get key d with
      | Some v => ret v
      | None => raise (mk_exn KeyError key)
      end
  | _ => raise (mk_exn TypeError "subscript")
  end.

(** The lines of a buffer, each with its newline. *)
Fixpoint bytes_lines_from (cur : bytes) (b : bytes) : list bytes :=
  match b with
  | [] => match cur with [] => [] | _ => [cur] end
  | x :: b' =>
      if Byte.eqb x Byte.x0a
      then (cur ++ [x])%list :: bytes_lines_from [] b'
      else bytes_lines_from (cur ++ [x])%list b'
  end.

Definition bytes_lines (b : bytes) : list bytes := bytes_lines_from [] b.

(** The elements a [for] loop visits. *)
Definition py_iter (v : pyval) : Py (list pyval) :=
  match v with
  | PList l => ret l
  | PDict d => ret (map (fun kv => PStr (fst kv)) d)
  | PStr s => ret (map PStr (utf8_chars s))
  | PBytes b => ret (map (fun x => PInt (Z.of_N (Byte.to_N x))) b)
  | PUploadedFile data => ret (map PBytes (bytes_lines data))
  | _ => raise (mk_exn TypeError "not iterable")
  end.

Fixpoint for_each {A} (l : list A) (body : A -> Py unit) : Py unit :=
  match l with
  | [] => ret tt
  | x :: l' => body x ;;; for_each l' body
  end.

(** A value inside an f-string. *)
Definition fmt (w : World) (v : pyval) : string :=
  match v with
  | PStr s => s
  | _ => py_str w v
  end.

(** * The adapters *)

Section Adapters.

Variable w : World.

(** ** [get_tts_audio] (lines 13-56) *)

(** [texttospeech.SynthesisInput(text=v)]: a [str] is the text; [None]
    leaves the field at its default, the empty text; [bytes] are taken as
    UTF-8; any other value is refused. *)
Definition SynthesisInput_new (v : pyval) : outcome SynthesisInput :=
  match v with
  | PStr s => Ret {| input_text := s |}
  | PNone => Ret {| input_text := "" |}
  | PBytes b =>
      if utf8_valid b then Ret {| input_text := string_of_list_byte b |}
      else Raise (mk_exn ValueError "utf-8")
  | _ => Raise (mk_exn TypeError "text")
  end.

Definition SynthesisInput_of (v : pyval) : Py SynthesisInput :=
  lift (SynthesisInput_new v).

Definition get_tts_audio (text_to_speak : pyval) : Py pyval :=
  try_except
    (client <- lift (TextToSpeechClient w) ;;
     synthesis_input <- SynthesisInput_of text_to_speak ;;
     let voice :=
       {| language_code := "en-US";
          name := "en-US-Wavenet-F";
          ssml_gender := FEMALE |} in
     let audio_config :=
       {| audio_encoding := MP3;
          speaking_rate := 0x1.ccccccccccccdp-1%float;   (* the float 0.9 *)
          pitch := 0 |} in
     record_call (SynthesizeSpeech synthesis_input voice audio_config) ;;;
     response <- lift (synthesize_speech w synthesis_input voice audio_config) ;;
     ret (PBytes (audio_content response)))
    [ (is_Exception,
       fun e => st_error ("文本转语音失败: " ++ exn_str e) ;;; ret PNone) ].

(** ** [analyze_image_for_words] (lines 58-101) *)

Definition prompt : string :=
  "Identify the main objects in the provided image. For each object, give its name in English and its translation in Simplified Chinese. 
        Please return the result as a JSON list of objects, where each object has 'english_name' and 'chinese_name' keys. 
        For example: [{'english_name': 'mug', 'chinese_name': '马克杯'}, {'english_name': 'key', 'chinese_name': '钥匙'}]. 
        Only return the JSON list.".

Arguments prompt : simpl never.

Definition analyze_image_for_words (image_bytes : bytes) : Py pyval :=
  try_except
    (image <- lift (Image_open w image_bytes) ;;
     let model := "gemini-pro-vision" in
     record_call (GenerateContent model prompt image) ;;;
     response <- lift (generate_content w model prompt image) ;;
     try_except
       (raw <- lift (text response) ;;
        let response_text := strip raw in
        if startswith response_text "[" && endswith response_text "]" then
          objects_list <- lift (json_loads w response_text) ;;
          ret objects_list
        else
          st_error "AI响应格式不正确" ;;;
          ret (PList []))
       [ (is_JSONDecodeError,
          fun _ => st_error "无法解析AI响应为JSON格式" ;;; ret (PList [])) ])
    [ (is_Exception,
       fun e => st_error ("分析图片时发生错误: " ++ exn_str e) ;;;
                ret (PList [])) ].

End Adapters.

(** * The page (lines 103-237) *)

(** ** Session-state initialisation (lines 106-117) *)

(** [if 'field' not in st.session_state: st.session_state.field = default] *)
Definition init_field (field : string) (default : pyval) : Py unit :=
  present <- ss_contains field ;;
  if negb present then ss_set field default else ret tt.

Definition init_session_state : Py unit :=
  init_field "conversation" (PList []) ;;;
  init_field "feedback_log" (PList []) ;;;
  init_field "current_image" PNone ;;;
  init_field "audio_filename" PNone ;;;
  init_field "is_recording" (PBool false) ;;;
  init_field "analyzed_objects" (PList []).

Section Page.

Variable w : World.
Variable inp : Inputs.

(** ** Capture and analysis (lines 124-170) *)

(** [buffer.getvalue()] *)
Definition getvalue (v : pyval) : Py bytes :=
  match v with
  | PUploadedFile data => ret data
  | _ => raise (mk_exn AttributeError "getvalue")
  end.

(** The key of the pronounce button of a row (line 157). *)
Definition pronounce_key (english_name : pyval) : string :=
  "pronounce_" ++ fmt w english_name.

(** One row of the results (lines 148-168). *)
Definition object_row (obj : pyval) : Py unit :=
  en <- subscript obj "english_name" ;;
  st_markdown ("**" ++ fmt w en ++ "**") ;;;
  zh <- subscript obj "chinese_name" ;;
  st_markdown (fmt w zh) ;;;
  en <- subscript obj "english_name" ;;
  clicked <- st_button inp "🔊" (Some (pronounce_key en)) ;;
  (if clicked then
     _ <- subscript obj "english_name" ;;       (* the spinner's caption *)
     en <- subscript obj "english_name" ;;
     audio_bytes <- get_tts_audio w en ;;
     if truthy audio_bytes then
       st_audio audio_bytes "audio/mp3"
     else
       en <- subscript obj "english_name" ;;
       st_error ("无法生成 " ++ fmt w en ++ " 的发音")
   else ret tt) ;;;
  st_markdown "---".

Definition analysis_results_area : Py unit :=
  st_markdown "### Analysis Results" ;;;
  objs <- ss_get "analyzed_objects" ;;
  if truthy objs then
    st_markdown "#### 识别到的物体：" ;;;
    objs <- ss_get "analyzed_objects" ;;
    items <- py_iter objs ;;
    for_each items object_row
  else
    st_info "点击 'Analyze Photo for Words' 按钮开始分析图片".

Definition capture_section : Py unit :=
  emit (UCameraInput "Take Photo") ;;;
  match camera_photo inp with
  | Some img_file_buffer =>
      ss_set "current_image" (PUploadedFile img_file_buffer) ;;;
      emit (UImage img_file_buffer "已捕获的图像") ;;;
      clicked <- st_button inp "Analyze Photo for Words" None ;;
      (if clicked then
         cur <- ss_get "current_image" ;;
         if negb (is_none cur) then
           cur <- ss_get "current_image" ;;
           image_bytes <- getvalue cur ;;
           analysis_results <- analyze_image_for_words w image_bytes ;;
           ss_set "analyzed_objects" analysis_results ;;;
           st_rerun
         else ret tt
       else ret tt) ;;;
      analysis_results_area
  | None => ret tt
  end.

(** ** Chat history (lines 173-191) *)

Definition chat_style : string :=
  "
        <style>
        .chat-container {
            height: 400px;
            overflow-y: auto;
        }
        </style>
    ".

Definition chat_history : Py unit :=
  st_markdown chat_style ;;;
  conversation <- ss_get "conversation" ;;
  messages <- py_iter conversation ;;
  for_each messages (fun message =>
    role <- subscript message "role" ;;
    st_chat_message role ;;;
    body <- subscript message "text" ;;
    emit (UWrite body)).

(** ** Audio playback (lines 202-216) *)

(** A path argument of [os.path.exists], [open] and [os.remove]: a [str],
    or the [bytes] of the name.  A number is a file descriptor, which is
    not a name in [files]. *)
Definition as_path (v : pyval) : Py string :=
  match v with
  | PStr s => ret s
  | PBytes b => ret (string_of_list_byte b)
  | _ => raise (mk_exn TypeError "path")
  end.

Definition audio_player : Py unit :=
  audio_filename <- ss_get "audio_filename" ;;
  present <- (if truthy audio_filename then
                audio_filename <- ss_get "audio_filename" ;;
                path <- as_path audio_filename ;;
                os_path_exists path
              else ret false) ;;
  if (present : bool) then
    try_finally
      (try_except
         (audio_filename <- ss_get "audio_filename" ;;
          path <- as_path audio_filename ;;
          audio_bytes <- open_read path ;;
          st_audio (PBytes audio_bytes) "audio/wav")
         [ (is_FileNotFoundError, fun _ => st_error "音频文件未找到");
           (is_Exception,
            fun e => st_error ("播放音频时发生错误: " ++ exn_str e)) ])
      (try_except
         (audio_filename <- ss_get "audio_filename" ;;
          path <- as_path audio_filename ;;
          os_remove path)
         [ (any_exn, fun _ => ret tt) ])
  else ret tt.

(** ** Coach feedback (lines 223-237) *)

Definition feedback_style : string :=
  "
        <style>
        .feedback-container {
            height: 200px;
            overflow-y: auto;
        }
        </style>
    ".

Definition coach_feedback : Py unit :=
  emit (USubheader "Coach Feedback") ;;;
  st_markdown feedback_style ;;;
  feedback_log <- ss_get "feedback_log" ;;
  entries <- py_iter feedback_log ;;
  for_each entries (fun feedback => emit (UWrite feedback)).

(** ** The page, top to bottom *)

Definition page : Py unit :=
  init_session_state ;;;
  emit (UTitle "LingoLens MVP Simulator") ;;;
  emit (USubheader "Capture Context (Optional)") ;;;
  capture_section ;;;
  emit (USubheader "Talk to LingoLens AI") ;;;
  chat_history ;;;
  emit (USubheader "Input") ;;;
  _ <- st_button inp "🎤 Start Recording" None ;;
  _ <- st_button inp "⏹️ Stop Recording" None ;;
  audio_player ;;;
  emit (UTextInput "Or type your message here:") ;;;
  _ <- st_button inp "Send to AI" None ;;
  coach_feedback.

(** Line 11 reads the credential before anything is drawn. *)
Definition script : Py unit :=
  match secrets w !! "GOOGLE_API_KEY" with
  | Some _ => page
  | None => raise (mk_exn KeyError "GOOGLE_API_KEY")
  end.

End Page.

(** ** Runs of the script *)

(** One execution of the script over the session: the page is drawn
    afresh, everything else carries over. *)
Definition run_script (w : World) (inp : Inputs) (σ : Runtime)
    : outcome unit * Runtime :=
  script w inp (mk_runtime (session_state σ) (files σ) [] (remote_calls σ)).

Definition no_press (inp : Inputs) : Inputs :=
  {| camera_photo := camera_photo inp;
     pressed := fun _ => false;
     typed_text := typed_text inp |}.

(** One interaction: the script runs with the user's inputs; when it asks
    for a rerun it runs once more, with no button pressed. *)
Definition interact (w : World) (inp : Inputs) (σ : Runtime)
    : outcome unit * Runtime :=
  match run_script w inp σ with
  | (Raise e, σ') =>
      match exn_cls e with
      | RerunException => run_script w (no_press inp) σ'
      | _ => (Raise e, σ')
      end
  | r => r
  end.

Definition fresh_session : Runtime := mk_runtime ∅ ∅ [] [].

(** * Concrete sessions

    A world with table-driven services, used to run the script on explicit
    inputs. *)

Module Demo.

Definition dq : string := str_of_codes [34].
Definition quoted (s : string) : string := dq ++ s ++ dq.

(** [{"english_name": en, "chinese_name": zh}] as JSON text and as value. *)
Definition object_text (en zh : string) : string :=
  "{" ++ quoted "english_name" ++ ": " ++ quoted en ++ ", "
      ++ quoted "chinese_name" ++ ": " ++ quoted zh ++ "}".

Definition object_value (en zh : string) : pyval :=
  PDict [("english_name", PStr en); ("chinese_name", PStr zh)].

Definition mug : pyval := object_value "mug" "马克杯".
Definition key : pyval := object_value "key" "钥匙".

Definition mug_key_text : string :=
  "[" ++ object_text "mug" "马克杯" ++ ", " ++ object_text "key" "钥匙" ++ "]".

Definition key_text : string := "[" ++ object_text "key" "钥匙" ++ "]".

Definition words_text : string :=
  "[" ++ quoted "mug" ++ ", 7]".

Definition dict_text : string :=
  "{" ++ quoted "objects" ++ ": []}".

Definition broken_text : string := "[{'english_name': 'mug'}]".

Definition prose_text : string := "Here is the list: mug, key".

Definition photo_A : bytes := [Byte.xff; Byte.xd8; Byte.xff; Byte.xe0; Byte.x41].
Definition photo_B : bytes := [Byte.xff; Byte.xd8; Byte.xff; Byte.xe0; Byte.x42].
Definition photo_C : bytes := [Byte.xff; Byte.xd8; Byte.xff; Byte.xe0; Byte.x43].
Definition photo_D : bytes := [Byte.xff; Byte.xd8; Byte.xff; Byte.xe0; Byte.x44].
Definition photo_E : bytes := [Byte.xff; Byte.xd8; Byte.xff; Byte.xe0; Byte.x45].
Definition not_a_photo : bytes := [Byte.x00].
Definition mp3_of_mug : bytes := [Byte.x49; Byte.x44; Byte.x33].

Definition starts_jpeg (b : bytes) : bool :=
  match b with
  | x :: y :: _ => Byte.eqb x Byte.xff && Byte.eqb y Byte.xd8
  | _ => false
  end.

Definition last_byte (b : bytes) : Byte.byte := List.last b Byte.x00.

(** The decoder the table-driven world uses: it knows five texts. *)
Definition table_loads (s : string) : outcome pyval :=
  if String.eqb s mug_key_text then Ret (PList [mug; key])
  else if String.eqb s key_text then Ret (PList [key])
  else if String.eqb s words_text then Ret (PList [PStr "mug"; PInt 7])
  else if String.eqb s dict_text then Ret (PDict [("objects", PList [])])
  else Raise (mk_exn JSONDecodeError "Expecting value").

(** The model answers by photo: A gets two objects, padded with white
    space; B gets one object; C gets an array of a word and a number; D
    gets prose; E gets a bracketed text that is not JSON; any other photo
    gets an object, not an array. *)
Definition table_model (model prompt : string) (image : Image)
    : outcome GenerateContentResponse :=
  let tag := last_byte (image_fp image) in
  if Byte.eqb tag Byte.x41
  then Ret {| text := Ret (" " ++ mug_key_text ++ str_of_codes [10]) |}
  else if Byte.eqb tag Byte.x42 then Ret {| text := Ret key_text |}
  else if Byte.eqb tag Byte.x43 then Ret {| text := Ret words_text |}
  else if Byte.eqb tag Byte.x44 then Ret {| text := Ret prose_text |}
  else if Byte.eqb tag Byte.x45 then Ret {| text := Ret broken_text |}
  else Ret {| text := Ret dict_text |}.

Definition world : World := {|
  secrets := {[ "GOOGLE_API_KEY" := "k" ]};
  Image_open b :=
    if starts_jpeg b then Ret {| image_fp := b |}
    else Raise (mk_exn OtherException "cannot identify image file");
  generate_content := table_model;
  json_loads := table_loads;
  TextToSpeechClient := Ret tt;
  synthesize_speech i v a :=
    if String.eqb (input_text i) "mug"
    then Ret {| audio_content := mp3_of_mug |}
    else Raise (mk_exn OtherException "503 unavailable");
  py_str _ := "?";
|}.

(** The same world with the speech service out of reach. *)
Definition offline_world : World := {|
  secrets := secrets world;
  Image_open := Image_open world;
  generate_content m p i := Raise (mk_exn OtherException "quota exceeded");
  json_loads := json_loads world;
  TextToSpeechClient := Raise (mk_exn OtherException "no credentials");
  synthesize_speech := synthesize_speech world;
  py_str := py_str world;
|}.

Definition capture (photo : bytes) : Inputs :=
  {| camera_photo := Some photo; pressed := fun _ => false; typed_text := "" |}.

Definition capture_and_analyze (photo : bytes) : Inputs :=
  {| camera_photo := Some photo;
     pressed := String.eqb "Analyze Photo for Words";
     typed_text := "" |}.

Definition idle : Inputs :=
  {| camera_photo := None; pressed := fun _ => false; typed_text := "" |}.

Definition reply_path : string := "/tmp/reply.wav".
Definition reply_wav : bytes := [Byte.x52; Byte.x49; Byte.x46; Byte.x46].

(** A session whose [audio_filename] names an existing file. *)
Definition session_with_audio : Runtime :=
  mk_runtime {[ "audio_filename" := PStr reply_path ]}
             {[ reply_path :=
                  {| f_data := reply_wav; f_readable := true;
                     f_removable := true |} ]}
             [] [].

End Demo.

(** * Vocabulary of the properties *)

(** The defaults of lines 106-117, as a map. *)
Definition default_state : gmap string pyval :=
  list_to_map
    [ ("conversation", PList []); ("feedback_log", PList []);
      ("current_image", PNone); ("audio_filename", PNone);
      ("is_recording", PBool false); ("analyzed_objects", PList []) ].

(** [keeps_session m]: [m] never writes to [st.session_state]. *)
Definition keeps_session {A} (m : Py A) : Prop :=
  forall σ, session_state (snd (m σ)) = session_state σ.

(** [σ] after drawing [evs] and sending [calls]. *)
Definition extend (σ : Runtime) (evs : list ui_event)
    (calls : list remote_call) : Runtime :=
  mk_runtime (session_state σ) (files σ) (view σ ++ evs)
             (remote_calls σ ++ calls).

(** [σ] with another map of session fields. *)
Definition with_session (σ : Runtime) (ss : gmap string pyval) : Runtime :=
  mk_runtime ss (files σ) (view σ) (remote_calls σ).

Definition with_files (σ : Runtime) (fs : gmap string file) : Runtime :=
  mk_runtime (session_state σ) fs (view σ) (remote_calls σ).

(** The text is bracketed: what line 89 tests. *)
Definition bracketed (s : string) : bool :=
  startswith s "[" && endswith s "]".

(** A record of the shape the prompt asks for. *)
Definition english_name_of (obj : pyval) : option string :=
  match obj with
  | PDict d =>
      match assoc_get "english_name" d with
      | Some (PStr s) => Some s
      | _ => None
      end
  | _ => None
  end.

Definition chinese_name_of (obj : pyval) : option string :=
  match obj with
  | PDict d =>
      match assoc_get "chinese_name" d with
      | Some (PStr s) => Some s
      | _ => None
      end
  | _ => None
  end.

Definition is_detected_object (obj : pyval) : bool :=
  match english_name_of obj, chinese_name_of obj with
  | Some _, Some _ => true
  | _, _ => false
  end.

(** The keys a page takes from [keys], one after the other, when it holds
    [seen] already: all of them up to the first that is held, and that one
    when there is one. *)
Fixpoint until_repeat (seen keys : list string)
    : list string * option string :=
  match keys with
  | [] => ([], None)
  | k :: rest =>
      if existsb (String.eqb k) seen then ([], Some k)
      else let '(drawn, dup) := until_repeat (seen ++ [k]) rest in
           (k :: drawn, dup)
  end.

Definition errors (evs : list ui_event) : list ui_event :=
  List.filter is_error evs.

(** The libraries raise [Exception]s only: no interrupt or exit request
    arrives while the adapter runs. *)
Record raises_Exceptions (w : World) : Prop := {
  Image_open_exn : forall b, raises_only_Exception (Image_open w b);
  generate_content_exn :
    forall m p i, raises_only_Exception (generate_content w m p i);
  text_exn :
    forall m p i r, generate_content w m p i = Ret r ->
                    raises_only_Exception (text r);
  json_loads_exn : forall s, raises_only_Exception (json_loads w s);
  TextToSpeechClient_exn : raises_only_Exception (TextToSpeechClient w);
  synthesize_speech_exn :
    forall i v a, raises_only_Exception (synthesize_speech w i v a);
}.

(** A fact of the JSON grammar: a text that starts with a bracket and
    parses, parses to an array. *)
Definition json_bracket_is_list (w : World) : Prop :=
  forall s v, json_loads w s = Ret v -> startswith s "[" = true ->
              is_list v = true.

(** The fixed synthesis parameters. *)
Definition fixed_voice : VoiceSelectionParams :=
  {| language_code := "en-US"; name := "en-US-Wavenet-F";
     ssml_gender := FEMALE |}.

Definition fixed_audio_config : AudioConfig :=
  {| audio_encoding := MP3; speaking_rate := (9 / 10)%float; pitch := 0 |}.

(** What [get_tts_audio] makes of the service's answer to its request. *)
Definition tts_result (w : World) (s : string) : outcome pyval :=
  let caught (e : exn) : outcome pyval :=
    if is_Exception e then Ret PNone else Raise e in
  match TextToSpeechClient w with
  | Raise e => caught e
  | Ret _ =>
      match synthesize_speech w {| input_text := s |}
              fixed_voice fixed_audio_config with
      | Ret response => Ret (PBytes (audio_content response))
      | Raise e => caught e
      end
  end.

(** The adapter called once per entry, in order. *)
Fixpoint analyze_each (calls : list (World * bytes)) : Py (list pyval) :=
  match calls with
  | [] => ret []
  | (w, image_bytes) :: rest =>
      r <- analyze_image_for_words w image_bytes ;;
      rs <- analyze_each rest ;;
      ret (r :: rs)
  end.

(** The model answered, and its trimmed answer is not a JSON array text:
    it is not bracketed, or it is bracketed and [json.loads] rejects it. *)
Definition malformed_response (w : World) (image_bytes : bytes) : Prop :=
  exists image response raw,
    Image_open w image_bytes = Ret image /\
    generate_content w "gemini-pro-vision" prompt image = Ret response /\
    text response = Ret raw /\
    (bracketed (strip raw) = false \/
     (bracketed (strip raw) = true /\
      exists e, json_loads w (strip raw) = Raise e /\
                is_JSONDecodeError e = true)).

(** The ways an analysis fails. *)
Inductive analysis_failure (w : World) (image_bytes : bytes) : Prop :=
| decode_failure e :
    Image_open w image_bytes = Raise e ->
    analysis_failure w image_bytes
| invocation_failure image e :
    Image_open w image_bytes = Ret image ->
    generate_content w "gemini-pro-vision" prompt image = Raise e ->
    analysis_failure w image_bytes
| no_text image response e :
    Image_open w image_bytes = Ret image ->
    generate_content w "gemini-pro-vision" prompt image = Ret response ->
    text response = Raise e ->
    analysis_failure w image_bytes
| malformed_json image response raw e :
    Image_open w image_bytes = Ret image ->
    generate_content w "gemini-pro-vision" prompt image = Ret response ->
    text response = Ret raw ->
    json_loads w (strip raw) = Raise e ->
    analysis_failure w image_bytes
| not_a_list image response raw v :
    Image_open w image_bytes = Ret image ->
    generate_content w "gemini-pro-vision" prompt image = Ret response ->
    text response = Ret raw ->
    json_loads w (strip raw) = Ret v ->
    is_list v = false ->
    analysis_failure w image_bytes.

(** The session fields once the capture block has run on a photo [B]:
    [current_image] is [B]; [analyzed_objects] is written only when the
    analyze button was pressed and the analysis returned. *)
Definition after_capture (w : World) (inp : Inputs) (B : bytes)
    (ss : gmap string pyval) : gmap string pyval :=
  let base := <[ "current_image" := PUploadedFile B ]> ss in
  if pressed inp "Analyze Photo for Words" then
    match fst (analyze_image_for_words w B fresh_session) with
    | Ret v => <[ "analyzed_objects" := v ]> base
    | Raise _ => base
    end
  else base.

(** What one playback attempt on the file [f] at [path] draws. *)
Definition playback_event (path : string) (f : file) : ui_event :=
  if f_readable f then UAudio (PBytes (f_data f)) "audio/wav"
  else UError ("播放音频时发生错误: " ++ path).

(** The elements of a result row up to its button, and the whole row when
    the button was not pressed. *)
Definition row_events_before (en zh : string) : list ui_event :=
  [ UMarkdown ("**" ++ en ++ "**"); UMarkdown zh;
    UButton "🔊" (Some ("pronounce_" ++ en)) ].

Definition row_events (en zh : string) : list ui_event :=
  [ UMarkdown ("**" ++ en ++ "**"); UMarkdown zh;
    UButton "🔊" (Some ("pronounce_" ++ en)); UMarkdown "---" ].

(** * Vocabulary of the further properties *)

(** The request of the analysis adapter for a decoded image. *)
Definition analysis_call (image : Image) : remote_call :=
  GenerateContent "gemini-pro-vision" prompt image.

(** The request of the speech adapter for a text. *)
Definition speech_call (s : string) : remote_call :=
  SynthesizeSpeech {| input_text := s |} fixed_voice fixed_audio_config.

(** At most one element, and that one an error. *)
Definition at_most_one_error (evs : list ui_event) : Prop :=
  evs = [] \/ exists msg, evs = [UError msg].

(** The adapter run on its own, from an empty runtime. *)
Definition analysis (w : World) (image_bytes : bytes)
    : outcome pyval * Runtime :=
  analyze_image_for_words w image_bytes fresh_session.

(** [keeps_files m]: [m] never creates, changes or deletes a local file. *)
Definition keeps_files {A} (m : Py A) : Prop :=
  forall σ, files (snd (m σ)) = files σ.

(** The exception a row raises before its button is drawn, if any: the
    record is not a dict, or it lacks one of the two keys. *)
Definition row_error (obj : pyval) : option exn :=
  match obj with
  | PDict d =>
      match assoc_get "english_name" d with
      | None => Some (mk_exn KeyError "english_name")
      | Some _ =>
          match assoc_get "chinese_name" d with
          | None => Some (mk_exn KeyError "chinese_name")
          | Some _ => None
          end
      end
  | _ => Some (mk_exn TypeError "subscript")
  end.

(** The path the playback block would use: [audio_filename], once the
    defaults are in, when it is a [str] or the [bytes] of a name. *)
Definition audio_path (ss : gmap string pyval) : option string :=
  match (ss ∪ default_state) !! "audio_filename" with
  | Some (PStr p) => Some p
  | Some (PBytes b) => Some (string_of_list_byte b)
  | _ => None
  end.

(** [keeps_audio m]: [m] leaves the files and the playback path alone. *)
Definition keeps_audio {A} (m : Py A) : Prop :=
  forall σ,
    files (snd (m σ)) = files σ /\
    audio_path (session_state (snd (m σ))) = audio_path (session_state σ).

(** [deletes_at_most_audio m]: the files after [m] are the files before,
    or the files before without the playback path. *)
Definition deletes_at_most_audio {A} (m : Py A) : Prop :=
  forall σ,
    files (snd (m σ)) = files σ \/
    exists path,
      audio_path (session_state σ) = Some path /\
      files (snd (m σ)) = delete path (files σ).

(** The four fields no line of the script assigns after initialisation. *)
Definition inert_fields : list string :=
  [ "conversation"; "feedback_log"; "audio_filename"; "is_recording" ].

(** [quiet ss]: each inert field is absent or holds its default. *)
Definition quiet (ss : gmap string pyval) : Prop :=
  Forall (fun field => ss !! field = None \/
                       ss !! field = default_state !! field) inert_fields.

(** A session: one interaction after the other. *)
Fixpoint interact_all (w : World) (inps : list Inputs) (σ : Runtime)
    : Runtime :=
  match inps with
  | [] => σ
  | inp :: rest => interact_all w rest (snd (interact w inp σ))
  end.

(** Two inputs that differ at most in the typed text and in the three
    buttons "Start Recording", "Stop Recording" and "Send to AI". *)
Definition same_live_inputs (inp1 inp2 : Inputs) : Prop :=
  camera_photo inp1 = camera_photo inp2 /\
  forall k, k <> "🎤 Start Recording" -> k <> "⏹️ Stop Recording" ->
            k <> "Send to AI" ->
            pressed inp1 k = pressed inp2 k.

(** The page above the results area, for a photo [B]. *)
Definition page_top (B : bytes) : list ui_event :=
  [ UTitle "LingoLens MVP Simulator";
    USubheader "Capture Context (Optional)";
    UCameraInput "Take Photo";
    UImage B "已捕获的图像";
    UButton "Analyze Photo for Words" None ].

(** The page below the results area, with nothing in the chat and in the
    feedback log and nothing to play. *)
Definition page_bottom : list ui_event :=
  [ USubheader "Talk to LingoLens AI"; UMarkdown chat_style;
    USubheader "Input";
    UButton "🎤 Start Recording" None; UButton "⏹️ Stop Recording" None;
    UTextInput "Or type your message here:"; UButton "Send to AI" None;
    USubheader "Coach Feedback"; UMarkdown feedback_style ].

Definition row_of (obj : pyval) : list ui_event :=
  match english_name_of obj, chinese_name_of obj with
  | Some en, Some zh => row_events en zh
  | _, _ => []
  end.

(** The results area for a batch of well-formed records, no button
    pressed. *)
Definition results_events (objs : list pyval) : list ui_event :=
  UMarkdown "### Analysis Results" ::
  match objs with
  | [] => [UInfo "点击 'Analyze Photo for Words' 按钮开始分析图片"]
  | _ => UMarkdown "#### 识别到的物体：" :: flat_map row_of objs
  end.

(** The session fields after photo [B] was captured and analysed to [v]. *)
Definition analysed_session (ss : gmap string pyval) (B : bytes) (v : pyval)
    : gmap string pyval :=
  <[ "analyzed_objects" := v ]>
    (<[ "current_image" := PUploadedFile B ]> (ss ∪ default_state)).

Definition rerun_request : exn := mk_exn RerunException "".

(** A chat message the history can draw: a dict with a role that is a
    [str], and a text. *)
Definition is_message (m : pyval) : bool :=
  match m with
  | PDict d =>
      match assoc_get "role" d, assoc_get "text" d with
      | Some (PStr _), Some _ => true
      | _, _ => false
      end
  | _ => false
  end.

Definition message_events (m : pyval) : list ui_event :=
  match m with
  | PDict d =>
      match assoc_get "role" d, assoc_get "text" d with
      | Some (PStr role), Some body => [UChatMessage (PStr role); UWrite body]
      | _, _ => []
      end
  | _ => []
  end.

(** A row whose key the page holds already: the two captions are drawn,
    then the button is refused. *)
Definition row_refused (en zh : string) (σ : Runtime)
    : outcome unit * Runtime :=
  (Raise (duplicate_key ("pronounce_" ++ en)),
   extend σ [UMarkdown ("**" ++ en ++ "**"); UMarkdown zh] []).

(** The key of the row of a well-formed record. *)
Definition row_key (obj : pyval) : option string :=
  match english_name_of obj with
  | Some en => Some ("pronounce_" ++ en)
  | None => None
  end.

(** ** Vocabulary for trimming *)

(** The tokens one after the other. *)
Definition cat (toks : list string) : string :=
  fold_right String.append "" toks.

(** [a] starts one of the tokens of [ws] (or [ws] holds the empty token). *)
Definition is_lead (ws : list string) (a : ascii) : bool :=
  existsb (fun w => match w with
                    | String c _ => Ascii.eqb c a
                    | EmptyString => true
                    end) ws.

(** No token of [ws] starts another one, and none is empty. *)
Definition prefix_free (ws : list string) : bool :=
  forallb (fun a =>
    negb (String.eqb a "") &&
    forallb (fun b => String.eqb a b || negb (String.prefix a b)) ws) ws.

(** The white space read from the end of a text. *)
Definition whitespace_rev : list string := map str_rev whitespace.

(** The text opens, or ends, with a white-space character. *)
Definition starts_with_space (s : string) : bool :=
  existsb (startswith s) whitespace.

Definition ends_with_space (s : string) : bool :=
  existsb (endswith s) whitespace.

(** A text made of white space only. *)
Definition blank (s : string) : Prop :=
  exists toks, Forall (fun t => In t whitespace) toks /\ s = cat toks.

(** Nothing to play: [audio_filename] is [None] or the empty text, or it
    names a path with no file. *)
Definition nothing_to_play (σ : Runtime) : Prop :=
  match session_state σ !! "audio_filename" with
  | Some PNone => True
  | Some (PStr path) => path = "" \/ files σ !! path = None
  | _ => False
  end.

(** * Further concrete cases *)

Module Cases.

Import Demo.

(** The model call is cut short by an interrupt. *)
Definition interrupted_world : World := {|
  secrets := secrets world;
  Image_open := Image_open world;
  generate_content m p i := Raise (mk_exn KeyboardInterrupt "");
  json_loads := json_loads world;
  TextToSpeechClient := TextToSpeechClient world;
  synthesize_speech := synthesize_speech world;
  py_str := py_str world;
|}.

(** The speech service answers with no audio at all. *)
Definition silent_world : World := {|
  secrets := secrets world;
  Image_open := Image_open world;
  generate_content := generate_content world;
  json_loads := json_loads world;
  TextToSpeechClient := Ret tt;
  synthesize_speech i v a := Ret {| audio_content := [] |};
  py_str := py_str world;
|}.

Definition blank_text : string := str_of_codes [10; 32; 9; 227; 128; 128].

(** The model answers with white space only. *)
Definition blank_world : World := {|
  secrets := secrets world;
  Image_open := Image_open world;
  generate_content m p i := Ret {| text := Ret blank_text |};
  json_loads := json_loads world;
  TextToSpeechClient := TextToSpeechClient world;
  synthesize_speech := synthesize_speech world;
  py_str := py_str world;
|}.

Definition remark_text : string := "[] 没有物体。".

(** The model adds a remark after the array. *)
Definition remark_world : World := {|
  secrets := secrets world;
  Image_open := Image_open world;
  generate_content m p i := Ret {| text := Ret remark_text |};
  json_loads := json_loads world;
  TextToSpeechClient := TextToSpeechClient world;
  synthesize_speech := synthesize_speech world;
  py_str := py_str world;
|}.

Definition quote_text : string := "“mug” and “key”".

(** The model answers in prose that opens with a quotation mark. *)
Definition quote_world : World := {|
  secrets := secrets world;
  Image_open := Image_open world;
  generate_content m p i := Ret {| text := Ret quote_text |};
  json_loads := json_loads world;
  TextToSpeechClient := TextToSpeechClient world;
  synthesize_speech := synthesize_speech world;
  py_str := py_str world;
|}.

(** The user pressed the button with the key (or label) [k]. *)
Definition press (k : string) : Inputs :=
  {| camera_photo := None; pressed := String.eqb k; typed_text := "" |}.

(** The user typed a message and pressed "Send to AI", photo A in the
    camera. *)
Definition send_hello : Inputs :=
  {| camera_photo := Some photo_A;
     pressed := String.eqb "Send to AI";
     typed_text := "hello" |}.

(** A session whose stored batch has a string between two records. *)
Definition session_with_bad_record : Runtime :=
  with_session fresh_session
    {[ "analyzed_objects" := PList [mug; PStr "lamp"; key] ]}.

Definition hello : pyval :=
  PDict [("role", PStr "user"); ("text", PStr "hello")].
Definition welcome : pyval :=
  PDict [("role", PStr "assistant"); ("text", PStr "welcome")].

Definition session_with_chat : Runtime :=
  with_session fresh_session
    {[ "conversation" := PList [hello; welcome] ]}.

Definition session_with_feedback : Runtime :=
  with_session fresh_session
    {[ "feedback_log" := PList [PStr "good"; PStr "slower"] ]}.

(** A session that holds the analysis of an earlier photo. *)
Definition session_after_A : Runtime :=
  snd (interact world (capture_and_analyze photo_A) fresh_session).

End Cases.

(** * Properties *)

(** ** Running the monad *)

Lemma runtime_eta (σ : Runtime) :
  mk_runtime (session_state σ) (files σ) (view σ) (remote_calls σ) = σ.
Proof. by destruct σ. Qed.

Lemma bind_ret_run {A B} (m : Py A) (k : A -> Py B) σ a σ' :
  m σ = (Ret a, σ') -> bind m k σ = k a σ'.
Proof. intros H. unfold bind. by rewrite H. Qed.

Lemma bind_raise_run {A B} (m : Py A) (k : A -> Py B) σ e σ' :
  m σ = (Raise e, σ') -> bind m k σ = (Raise e, σ').
Proof. intros H. unfold bind. by rewrite H. Qed.

(** ** Session-state initialisation *)

Lemma init_field_run field d σ :
  init_field field d σ =
    (Ret tt, with_session σ (session_state σ ∪ {[ field := d ]})).
Proof.
  unfold init_field, bind, ss_contains, ss_set, ret, with_session. simpl.
  destruct (session_state σ !! field) as [v|] eqn:E.
  - rewrite bool_decide_eq_true_2 by eauto. simpl.
    f_equal. rewrite <- (runtime_eta σ) at 1. f_equal.
    apply map_eq. intros i. rewrite lookup_union.
    destruct (decide (field = i)) as [->|Hne].
    + rewrite E. by rewrite lookup_singleton_eq.
    + rewrite lookup_singleton_ne by done. by destruct (session_state σ !! i).
  - rewrite bool_decide_eq_false_2 by (intros [? ?]; congruence). simpl.
    f_equal. f_equal. by apply insert_union_singleton_r.
Qed.

Lemma init_session_state_run σ :
  init_session_state σ =
    (Ret tt, with_session σ (session_state σ ∪ default_state)).
Proof.
  unfold init_session_state.
  repeat (erewrite bind_ret_run by apply init_field_run; simpl).
  rewrite init_field_run. unfold with_session. simpl. f_equal. f_equal.
  rewrite <- !(assoc_L (∪)). f_equal.
Qed.

(** C9.  Each of the six fields gets its default only when it is absent:
    after the initialisation block a field that held a value still holds
    it, and an absent field holds its default from [default_state]
    ([[]], [[]], [None], [None], [False], [[]]); the block always
    completes. *)
Theorem init_session_state_conditional (σ : Runtime) (field : string) :
  fst (init_session_state σ) = Ret tt /\
  session_state (snd (init_session_state σ)) !! field =
    match session_state σ !! field with
    | Some v => Some v
    | None => default_state !! field
    end.
Proof.
  rewrite init_session_state_run. simpl. split; [done|].
  rewrite lookup_union. by destruct (session_state σ !! field), (default_state !! field).
Qed.

Lemma init_session_state_idempotent σ :
  init_session_state (snd (init_session_state σ)) = init_session_state σ.
Proof.
  rewrite !init_session_state_run. unfold with_session. simpl.
  f_equal. f_equal. rewrite <- (assoc_L (∪)). f_equal.
Qed.

(** ** The speech adapter *)

Lemma extend_nil σ : extend σ [] [] = σ.
Proof. unfold extend. rewrite !app_nil_r. apply runtime_eta. Qed.

Ltac run_py :=
  unfold try_except, try_finally, bind, lift, ret, raise, record_call,
    st_error, st_info, st_markdown, st_audio, emit, extend; simpl.

(** C6.  Whatever value is passed as the text, the only request
    [get_tts_audio] sends is one [synthesize_speech] with the voice
    en-US / en-US-Wavenet-F / FEMALE and the audio configuration MP3 /
    rate 0.9 / pitch 0: nothing of the request but its input depends on the
    value.  The request is sent when the client could be built and the
    input could be made of the value (a [str]; [None], which gives the
    empty text; well-formed UTF-8 [bytes]); otherwise nothing is sent.
    For a [str] the adapter's result is made of the answer to that very
    request. *)
Theorem get_tts_audio_fixed_parameters
    (w : World) (text_to_speak : pyval) (σ : Runtime) :
  remote_calls (snd (get_tts_audio w text_to_speak σ)) =
    (remote_calls σ ++
     match TextToSpeechClient w, SynthesisInput_new text_to_speak with
     | Ret _, Ret input =>
         [SynthesizeSpeech input
            {| language_code := "en-US"; name := "en-US-Wavenet-F";
               ssml_gender := FEMALE |}
            {| audio_encoding := MP3; speaking_rate := (9 / 10)%float;
               pitch := 0 |}]
     | _, _ => []
     end)%list /\
  (forall s, text_to_speak = PStr s ->
             fst (get_tts_audio w text_to_speak σ) = tts_result w s).
Proof.
  split.
  - unfold get_tts_audio, SynthesisInput_of. run_py.
    change (9 / 10)%float with 0x1.ccccccccccccdp-1%float.
    destruct (TextToSpeechClient w) as [[]|e]; simpl.
    + destruct (SynthesisInput_new text_to_speak) as [input|e]; simpl.
      * match goal with
        | |- context [synthesize_speech w ?i ?v ?a] =>
            destruct (synthesize_speech w i v a) as [r|e]; simpl
        end; [done|].
        by destruct (is_Exception e).
      * destruct (is_Exception e); simpl; by rewrite app_nil_r.
    + destruct (is_Exception e); simpl; by rewrite app_nil_r.
  - intros s ->. unfold get_tts_audio, SynthesisInput_of, tts_result. run_py.
    destruct (TextToSpeechClient w) as [[]|e]; simpl.
    + unfold fixed_voice, fixed_audio_config.
      change (9 / 10)%float with 0x1.ccccccccccccdp-1%float.
      match goal with
      | |- context [synthesize_speech w ?i ?v ?a] =>
          destruct (synthesize_speech w i v a) as [r|e]; simpl
      end; [done|].
      by destruct (is_Exception e).
    + by destruct (is_Exception e).
Qed.

(** C7.  When building the client or the synthesis call raises an
    [Exception] [e], [get_tts_audio] returns [None], draws exactly one
    error message, and raises nothing. *)
Theorem get_tts_audio_failure
    (w : World) (s : string) (σ : Runtime) (e : exn) :
  is_Exception e = true ->
  TextToSpeechClient w = Raise e \/
  (TextToSpeechClient w = Ret tt /\
   synthesize_speech w {| input_text := s |} fixed_voice fixed_audio_config
     = Raise e) ->
  fst (get_tts_audio w (PStr s) σ) = Ret PNone /\
  view (snd (get_tts_audio w (PStr s) σ)) =
    (view σ ++ [UError ("文本转语音失败: " ++ exn_str e)%string])%list /\
  session_state (snd (get_tts_audio w (PStr s) σ)) = session_state σ /\
  files (snd (get_tts_audio w (PStr s) σ)) = files σ.
Proof.
  intros He [Hc|[Hc Hs]]; unfold get_tts_audio; run_py; rewrite Hc; simpl.
  - by rewrite He.
  - unfold fixed_voice, fixed_audio_config in Hs.
    change (9 / 10)%float with 0x1.ccccccccccccdp-1%float in Hs.
    rewrite Hs. simpl. by rewrite He.
Qed.

(** ** The image adapter *)

Section Analysis.

Variable w : World.
Variable image_bytes : bytes.
Variable σ : Runtime.

Local Abbreviation the_call image :=
  (GenerateContent "gemini-pro-vision" prompt image).

Lemma analyze_decode_failure e :
  Image_open w image_bytes = Raise e -> is_Exception e = true ->
  analyze_image_for_words w image_bytes σ =
    (Ret (PList []),
     extend σ [UError ("分析图片时发生错误: " ++ exn_str e)%string] []).
Proof.
  intros H He. unfold analyze_image_for_words. run_py.
  rewrite H. simpl. rewrite He. by rewrite app_nil_r.
Qed.

Section Decoded.

Variable image : Image.
Hypothesis Himage : Image_open w image_bytes = Ret image.

Lemma analyze_invocation_failure e :
  generate_content w "gemini-pro-vision" prompt image = Raise e ->
  is_Exception e = true ->
  analyze_image_for_words w image_bytes σ =
    (Ret (PList []),
     extend σ [UError ("分析图片时发生错误: " ++ exn_str e)%string]
       [the_call image]).
Proof.
  intros H He. unfold analyze_image_for_words. run_py.
  rewrite Himage. simpl. rewrite H. simpl. by rewrite He.
Qed.

Section Answered.

Variable response : GenerateContentResponse.
Hypothesis Hresponse :
  generate_content w "gemini-pro-vision" prompt image = Ret response.

Lemma analyze_no_text e :
  text response = Raise e -> is_Exception e = true ->
  exists msg,
    analyze_image_for_words w image_bytes σ =
      (Ret (PList []), extend σ [UError msg] [the_call image]).
Proof.
  intros H He. unfold analyze_image_for_words. run_py.
  rewrite Himage. simpl. rewrite Hresponse. simpl. rewrite H. simpl.
  (* a JSONDecodeError from [.text] meets the inner clause *)
  destruct (is_JSONDecodeError e); simpl; [|rewrite He]; eauto.
Qed.

Variable raw : string.
Hypothesis Hraw : text response = Ret raw.

Lemma analyze_unbracketed :
  bracketed (strip raw) = false ->
  analyze_image_for_words w image_bytes σ =
    (Ret (PList []), extend σ [UError "AI响应格式不正确"] [the_call image]).
Proof.
  intros H. unfold analyze_image_for_words. run_py.
  rewrite Himage. simpl. rewrite Hresponse. simpl. rewrite Hraw. simpl.
  unfold bracketed in H. by rewrite H.
Qed.

Lemma analyze_parsed v :
  bracketed (strip raw) = true ->
  json_loads w (strip raw) = Ret v ->
  analyze_image_for_words w image_bytes σ =
    (Ret v, extend σ [] [the_call image]).
Proof.
  intros H Hv. unfold analyze_image_for_words. run_py.
  rewrite Himage. simpl. rewrite Hresponse. simpl. rewrite Hraw. simpl.
  unfold bracketed in H. rewrite H. rewrite Hv. simpl. by rewrite app_nil_r.
Qed.

Lemma analyze_decode_error e :
  bracketed (strip raw) = true ->
  json_loads w (strip raw) = Raise e ->
  is_JSONDecodeError e = true ->
  analyze_image_for_words w image_bytes σ =
    (Ret (PList []),
     extend σ [UError "无法解析AI响应为JSON格式"] [the_call image]).
Proof.
  intros H Hv He. unfold analyze_image_for_words. run_py.
  rewrite Himage. simpl. rewrite Hresponse. simpl. rewrite Hraw. simpl.
  unfold bracketed in H. rewrite H. rewrite Hv. simpl. by rewrite He.
Qed.

Lemma analyze_other_parse_error e :
  bracketed (strip raw) = true ->
  json_loads w (strip raw) = Raise e ->
  is_JSONDecodeError e = false ->
  is_Exception e = true ->
  analyze_image_for_words w image_bytes σ =
    (Ret (PList []),
     extend σ [UError ("分析图片时发生错误: " ++ exn_str e)%string]
       [the_call image]).
Proof.
  intros H Hv Hj He. unfold analyze_image_for_words. run_py.
  rewrite Himage. simpl. rewrite Hresponse. simpl. rewrite Hraw. simpl.
  unfold bracketed in H. rewrite H. rewrite Hv. simpl. rewrite Hj.
  by rewrite He.
Qed.

End Answered.
End Decoded.
End Analysis.

(** C3.  When the photo decodes and the model's trimmed answer is a JSON
    array text that parses to [N] well-formed records, the adapter returns
    exactly these records, in the model's order, and draws nothing. *)
Theorem analyze_returns_records_in_order
    (w : World) (image_bytes : bytes) (σ : Runtime)
    (image : Image) (response : GenerateContentResponse) (raw : string)
    (objs : list pyval) :
  Image_open w image_bytes = Ret image ->
  generate_content w "gemini-pro-vision" prompt image = Ret response ->
  text response = Ret raw ->
  bracketed (strip raw) = true ->
  json_loads w (strip raw) = Ret (PList objs) ->
  Forall (fun obj => is_detected_object obj = true) objs ->
  analyze_image_for_words w image_bytes σ =
    (Ret (PList objs),
     extend σ [] [GenerateContent "gemini-pro-vision" prompt image]).
Proof. intros Hi Hr Ht Hb Hj _. by eapply analyze_parsed. Qed.

(** C8.  When the trimmed answer is bracketed and parses, the adapter
    returns the parsed value as it is, whatever its elements are: nothing
    checks that they are objects with the two name keys, no error is
    drawn, and the result is not replaced by an empty list. *)
Theorem analyze_returns_parsed_value_unchecked
    (w : World) (image_bytes : bytes) (σ : Runtime)
    (image : Image) (response : GenerateContentResponse) (raw : string)
    (v : pyval) :
  Image_open w image_bytes = Ret image ->
  generate_content w "gemini-pro-vision" prompt image = Ret response ->
  text response = Ret raw ->
  bracketed (strip raw) = true ->
  json_loads w (strip raw) = Ret v ->
  fst (analyze_image_for_words w image_bytes σ) = Ret v /\
  view (snd (analyze_image_for_words w image_bytes σ)) = view σ.
Proof.
  intros Hi Hr Ht Hb Hj. erewrite analyze_parsed by eassumption.
  simpl. by rewrite app_nil_r.
Qed.

Lemma analyze_malformed w image_bytes σ :
  malformed_response w image_bytes ->
  exists msg call,
    analyze_image_for_words w image_bytes σ =
      (Ret (PList []), extend σ [UError msg] [call]).
Proof.
  intros (image & response & raw & Hi & Hr & Ht & [Hb|[Hb (e & Hj & He)]]).
  - do 2 eexists. by eapply analyze_unbracketed.
  - do 2 eexists. by eapply analyze_decode_error.
Qed.

(** C4.  However many answers in a row are malformed (not bracketed once
    trimmed, or bracketed and rejected by [json.loads]), every call returns
    the empty list and draws exactly one error, and none raises: [n] calls
    give [n] empty lists and add [n] elements to the page, all errors. *)
Theorem analyze_malformed_repeatedly
    (calls : list (World * bytes)) (σ : Runtime) :
  Forall (fun c => malformed_response (fst c) (snd c)) calls ->
  exists evs sent,
    analyze_each calls σ =
      (Ret (replicate (length calls) (PList [])), extend σ evs sent) /\
    length evs = length calls /\
    Forall (fun ev => is_error ev = true) evs.
Proof.
  intros H. revert σ. induction H as [|[w b] calls Hc _ IH]; intros σ.
  - exists [], []. simpl. unfold ret. by rewrite extend_nil.
  - destruct (analyze_malformed w b σ Hc) as (msg & call & E).
    destruct (IH (extend σ [UError msg] [call])) as (evs & sent & E' & Hl & Hf).
    exists (UError msg :: evs), (call :: sent). split; [|split].
    + simpl. unfold bind at 1. rewrite E. unfold bind at 1. rewrite E'.
      unfold ret, extend. simpl. by rewrite <- !app_assoc.
    + simpl. by rewrite Hl.
    + by constructor.
Qed.

(** C5.  With libraries that raise [Exception]s only, the adapter always
    returns a list and never raises; and on each failure (the photo does
    not decode, the model call or reading its text fails, the trimmed text
    is rejected by [json.loads], or it parses to a value that is not a
    list) it returns the empty list and draws exactly one error. *)
Theorem analyze_never_raises
    (w : World) (image_bytes : bytes) (σ : Runtime) :
  raises_Exceptions w ->
  json_bracket_is_list w ->
  (exists v evs sent,
     analyze_image_for_words w image_bytes σ = (Ret v, extend σ evs sent) /\
     is_list v = true) /\
  (analysis_failure w image_bytes ->
   exists msg sent,
     analyze_image_for_words w image_bytes σ =
       (Ret (PList []), extend σ [UError msg] sent)).
Proof.
  intros Hw Hjson.
  assert (Hfail : forall image response raw e,
    Image_open w image_bytes = Ret image ->
    generate_content w "gemini-pro-vision" prompt image = Ret response ->
    text response = Ret raw ->
    json_loads w (strip raw) = Raise e ->
    exists msg sent,
      analyze_image_for_words w image_bytes σ =
        (Ret (PList []), extend σ [UError msg] sent)).
  { intros image response raw e Hi Hr Ht Hj.
    destruct (bracketed (strip raw)) eqn:Hb.
    - destruct (is_JSONDecodeError e) eqn:He.
      + do 2 eexists. by eapply analyze_decode_error.
      + do 2 eexists. eapply analyze_other_parse_error; try eassumption.
        pose proof (json_loads_exn w Hw (strip raw)) as Hx.
        by rewrite Hj in Hx.
    - do 2 eexists. by eapply analyze_unbracketed. }
  assert (Hnolist : forall image response raw v,
    Image_open w image_bytes = Ret image ->
    generate_content w "gemini-pro-vision" prompt image = Ret response ->
    text response = Ret raw ->
    json_loads w (strip raw) = Ret v ->
    is_list v = false ->
    analyze_image_for_words w image_bytes σ =
      (Ret (PList []),
       extend σ [UError "AI响应格式不正确"]
         [GenerateContent "gemini-pro-vision" prompt image])).
  { intros image response raw v Hi Hr Ht Hj Hv.
    eapply analyze_unbracketed; try eassumption.
    destruct (bracketed (strip raw)) eqn:Hb; [|done].
    unfold bracketed in Hb. apply andb_true_iff in Hb as [Hs _].
    specialize (Hjson _ _ Hj Hs). congruence. }
  split.
  - destruct (Image_open w image_bytes) as [image|e] eqn:Hi.
    2:{ pose proof (Image_open_exn w Hw image_bytes) as Hx. rewrite Hi in Hx.
        do 3 eexists. split; [by eapply analyze_decode_failure|done]. }
    destruct (generate_content w "gemini-pro-vision" prompt image)
      as [response|e] eqn:Hr.
    2:{ pose proof (generate_content_exn w Hw "gemini-pro-vision" prompt image)
          as Hx. rewrite Hr in Hx.
        do 3 eexists. split; [by eapply analyze_invocation_failure|done]. }
    destruct (text response) as [raw|e] eqn:Ht.
    2:{ pose proof (text_exn w Hw _ _ _ _ Hr) as Hx. rewrite Ht in Hx.
        destruct (analyze_no_text w image_bytes σ image Hi response Hr e Ht Hx)
          as [msg E].
        do 3 eexists. split; [exact E|done]. }
    destruct (json_loads w (strip raw)) as [v|e] eqn:Hj.
    2:{ destruct (Hfail _ _ _ _ eq_refl Hr Ht Hj) as (msg & sent & E).
        do 3 eexists. split; [exact E|done]. }
    destruct (bracketed (strip raw)) eqn:Hb.
    + do 3 eexists. split; [by eapply analyze_parsed|].
      unfold bracketed in Hb. apply andb_true_iff in Hb as [Hs _]. eauto.
    + do 3 eexists. split; [by eapply analyze_unbracketed|done].
  - intros [e Hi|image e Hi Hr|image response e Hi Hr Ht
           |image response raw e Hi Hr Ht Hj|image response raw v Hi Hr Ht Hj Hv].
    + pose proof (Image_open_exn w Hw image_bytes) as Hx. rewrite Hi in Hx.
      do 2 eexists. by eapply analyze_decode_failure.
    + pose proof (generate_content_exn w Hw "gemini-pro-vision" prompt image)
        as Hx. rewrite Hr in Hx.
      do 2 eexists. by eapply analyze_invocation_failure.
    + pose proof (text_exn w Hw _ _ _ _ Hr) as Hx. rewrite Ht in Hx.
      destruct (analyze_no_text w image_bytes σ image Hi response Hr e Ht Hx)
        as [msg E]. eauto.
    + eauto.
    + do 2 eexists. eauto.
Qed.

(** ** What leaves the session state alone *)

Create HintDb keeps discriminated.

Lemma keeps_ret {A} (a : A) : keeps_session (ret a).
Proof. by intros σ. Qed.

Lemma keeps_raise {A} e : keeps_session (@raise A e).
Proof. by intros σ. Qed.

Lemma keeps_lift {A} (r : outcome A) : keeps_session (lift r).
Proof. by intros σ. Qed.

Lemma keeps_emit ev : keeps_session (emit ev).
Proof. by intros σ. Qed.

Lemma keeps_record_call c : keeps_session (record_call c).
Proof. by intros σ. Qed.

Lemma keeps_bind {A B} (m : Py A) (k : A -> Py B) :
  keeps_session m -> (forall a, keeps_session (k a)) ->
  keeps_session (bind m k).
Proof.
  intros Hm Hk σ. unfold bind. specialize (Hm σ).
  destruct (m σ) as [[a|e] σ']; simpl in *; [|done].
  by rewrite Hk.
Qed.

Lemma keeps_try_except {A} (body : Py A) clauses :
  keeps_session body ->
  Forall (fun c => forall e, keeps_session (snd c e)) clauses ->
  keeps_session (try_except body clauses).
Proof.
  intros Hb Hc σ. unfold try_except. specialize (Hb σ).
  destruct (body σ) as [[a|e] σ']; simpl in *; [done|].
  destruct (List.find (fun c => fst c e) clauses) as [c|] eqn:E; [|done].
  apply List.find_some in E as [Hin _].
  rewrite Forall_forall in Hc. rewrite (Hc c); [done|].
  by apply list_elem_of_In.
Qed.

Lemma keeps_try_finally {A} (body : Py A) fin :
  keeps_session body -> keeps_session fin ->
  keeps_session (try_finally body fin).
Proof.
  intros Hb Hf σ. unfold try_finally. specialize (Hb σ).
  destruct (body σ) as [r σ1]. specialize (Hf σ1).
  destruct (fin σ1) as [[[]|e] σ2]; simpl in *; congruence.
Qed.

Lemma keeps_for_each {A} (l : list A) body :
  (forall x, keeps_session (body x)) -> keeps_session (for_each l body).
Proof.
  intros Hb. induction l as [|x l IH]; simpl.
  - apply keeps_ret.
  - apply keeps_bind; auto.
Qed.

Lemma keeps_ss_get field : keeps_session (ss_get field).
Proof. intros σ. unfold ss_get. by destruct (session_state σ !! field). Qed.

Lemma keeps_ss_contains field : keeps_session (ss_contains field).
Proof. by intros σ. Qed.

Lemma keeps_os_path_exists path : keeps_session (os_path_exists path).
Proof. by intros σ. Qed.

Lemma keeps_open_read path : keeps_session (open_read path).
Proof.
  intros σ. unfold open_read.
  destruct (files σ !! path) as [f|]; [|done]. by destruct (f_readable f).
Qed.

Lemma keeps_os_remove path : keeps_session (os_remove path).
Proof.
  intros σ. unfold os_remove.
  destruct (files σ !! path) as [f|]; [|done]. by destruct (f_removable f).
Qed.

Lemma keeps_subscript obj key : keeps_session (subscript obj key).
Proof.
  destruct obj; simpl; try apply keeps_raise.
  destruct (assoc_get key d); [apply keeps_ret|apply keeps_raise].
Qed.

Lemma keeps_py_iter v : keeps_session (py_iter v).
Proof. destruct v; simpl; first [apply keeps_ret|apply keeps_raise]. Qed.

Lemma keeps_as_path v : keeps_session (as_path v).
Proof. destruct v; simpl; first [apply keeps_ret|apply keeps_raise]. Qed.

Lemma keeps_getvalue v : keeps_session (getvalue v).
Proof. destruct v; simpl; first [apply keeps_ret|apply keeps_raise]. Qed.

Lemma keeps_SynthesisInput_of v : keeps_session (SynthesisInput_of v).
Proof. apply keeps_lift. Qed.

Lemma keeps_register_key k : keeps_session (register_key k).
Proof. intros σ. unfold register_key. by destruct (key_taken k (view σ)). Qed.

Lemma keeps_st_chat_message name : keeps_session (st_chat_message name).
Proof. destruct name; simpl; first [apply keeps_emit|apply keeps_raise]. Qed.

Lemma keeps_if {A} (b : bool) (m1 m2 : Py A) :
  keeps_session m1 -> keeps_session m2 ->
  keeps_session (if b then m1 else m2).
Proof. by destruct b. Qed.

Lemma keeps_st_error msg : keeps_session (st_error msg).
Proof. apply keeps_emit. Qed.

Lemma keeps_st_info msg : keeps_session (st_info msg).
Proof. apply keeps_emit. Qed.

Lemma keeps_st_markdown msg : keeps_session (st_markdown msg).
Proof. apply keeps_emit. Qed.

Lemma keeps_st_audio data format : keeps_session (st_audio data format).
Proof. apply keeps_emit. Qed.

#[local] Hint Resolve keeps_st_error keeps_st_info keeps_st_markdown
  keeps_st_audio : keeps.

#[local] Hint Resolve keeps_ret keeps_raise keeps_lift keeps_emit
  keeps_record_call keeps_ss_get keeps_ss_contains keeps_os_path_exists
  keeps_open_read keeps_os_remove keeps_subscript keeps_py_iter keeps_as_path
  keeps_getvalue keeps_SynthesisInput_of keeps_register_key
  keeps_st_chat_message : keeps.

Ltac keeps :=
  repeat first
    [ progress intros
    | progress cbn [snd]
    | solve [auto with keeps]
    | apply keeps_bind
    | apply keeps_try_except
    | apply keeps_try_finally
    | apply keeps_for_each
    | apply keeps_if
    | apply Forall_cons_2
    | apply Forall_nil_2 ].

Lemma keeps_st_button inp label key : keeps_session (st_button inp label key).
Proof. unfold st_button. destruct key; keeps. Qed.

Lemma keeps_get_tts_audio w v : keeps_session (get_tts_audio w v).
Proof. unfold get_tts_audio. keeps. Qed.

Lemma keeps_analyze_image_for_words w b :
  keeps_session (analyze_image_for_words w b).
Proof.
  unfold analyze_image_for_words. keeps.
Qed.

#[local] Hint Resolve keeps_st_button keeps_get_tts_audio
  keeps_analyze_image_for_words : keeps.

Lemma keeps_object_row w inp obj : keeps_session (object_row w inp obj).
Proof.
  unfold object_row. keeps.
Qed.

#[local] Hint Resolve keeps_object_row : keeps.

Lemma keeps_analysis_results_area w inp :
  keeps_session (analysis_results_area w inp).
Proof. unfold analysis_results_area. keeps. Qed.

Lemma keeps_chat_history : keeps_session chat_history.
Proof. unfold chat_history. keeps. Qed.

Lemma keeps_audio_player : keeps_session audio_player.
Proof. unfold audio_player. keeps. Qed.

Lemma keeps_coach_feedback : keeps_session coach_feedback.
Proof. unfold coach_feedback. keeps. Qed.

#[local] Hint Resolve keeps_analysis_results_area keeps_chat_history
  keeps_audio_player keeps_coach_feedback : keeps.

(** ** Capturing and analysing a photo *)

Lemma analyze_result_independent w b σ1 σ2 :
  fst (analyze_image_for_words w b σ1) = fst (analyze_image_for_words w b σ2).
Proof.
  unfold analyze_image_for_words. run_py.
  destruct (Image_open w b) as [image|e]; simpl.
  2:{ by destruct (is_Exception e). }
  destruct (generate_content w _ prompt image) as [response|e]; simpl.
  2:{ by destruct (is_Exception e). }
  destruct (text response) as [raw|e]; simpl.
  2:{ destruct (is_JSONDecodeError e); simpl; [done|].
      by destruct (is_Exception e). }
  destruct (_ && _); simpl; [|done].
  destruct (json_loads w (strip raw)) as [v|e]; simpl; [done|].
  destruct (is_JSONDecodeError e); simpl; [done|].
  by destruct (is_Exception e).
Qed.

Lemma session_bind_ret {A B} (m : Py A) (k : A -> Py B) σ a σ' :
  m σ = (Ret a, σ') ->
  session_state (snd (bind m k σ)) = session_state (snd (k a σ')).
Proof. intros H. by erewrite bind_ret_run. Qed.

Lemma session_bind_keeps {A B} (m : Py A) (k : A -> Py B) σ :
  (forall a, keeps_session (k a)) ->
  session_state (snd (bind m k σ)) = session_state (snd (m σ)).
Proof.
  intros Hk. unfold bind. destruct (m σ) as [[a|e] σ']; simpl; [|done].
  apply Hk.
Qed.

Lemma ss_get_run field v σ :
  session_state σ !! field = Some v -> ss_get field σ = (Ret v, σ).
Proof. intros H. unfold ss_get. by rewrite H. Qed.

Lemma capture_section_session w inp σ B :
  camera_photo inp = Some B ->
  session_state (snd (capture_section w inp σ)) =
    after_capture w inp B (session_state σ).
Proof.
  intros HB. unfold capture_section, after_capture. rewrite HB.
  unfold bind at 1. simpl.
  unfold bind at 1. simpl. unfold bind at 1. simpl.
  unfold bind at 1. simpl.
  destruct (pressed inp "Analyze Photo for Words") eqn:Hp.
  - match goal with |- context [mk_runtime ?a ?b ?c ?d] =>
      set (σ' := mk_runtime a b c d) end.
    assert (Hcur : session_state σ' !! "current_image"
                   = Some (PUploadedFile B)) by apply lookup_insert_eq.
    unfold bind at 1. unfold bind at 1.
    rewrite (ss_get_run _ _ _ Hcur). simpl.
    unfold bind at 1. rewrite (ss_get_run _ _ _ Hcur).
    unfold bind at 1. simpl.
    unfold bind at 1.
    pose proof (keeps_analyze_image_for_words w B σ') as Hk.
    rewrite (analyze_result_independent w B fresh_session σ').
    destruct (analyze_image_for_words w B σ') as [[v|e] σ'']; simpl in *.
    + by rewrite Hk.
    + by rewrite Hk.
  - unfold bind at 1. simpl.
    apply (keeps_analysis_results_area w inp).
Qed.

(** The page, from the session's point of view. *)
Lemma page_session w inp σ B :
  camera_photo inp = Some B ->
  session_state (snd (page w inp σ)) =
    after_capture w inp B (session_state σ ∪ default_state).
Proof.
  intros HB. unfold page.
  erewrite session_bind_ret by apply init_session_state_run.
  unfold bind at 1. simpl. unfold bind at 1. simpl.
  rewrite session_bind_keeps by (unfold st_button; keeps).
  by rewrite (capture_section_session _ _ _ B).
Qed.

(** C1, as the code has it.  A run of the page with a photo [B] in the
    camera stores [B] as [current_image].  [analyzed_objects] keeps the
    value it had (the entries of the previous photo, or the default [[]])
    unless the analyze button was pressed in this run and the analysis of
    [B] returned, in which case it is that result and nothing else. *)
Theorem new_photo_keeps_analysis_until_analyzed
    (w : World) (inp : Inputs) (σ : Runtime) (B : bytes) :
  camera_photo inp = Some B ->
  session_state (snd (page w inp σ)) !! "current_image"
    = Some (PUploadedFile B) /\
  session_state (snd (page w inp σ)) !! "analyzed_objects"
    = Some
        (let before :=
           default (PList []) (session_state σ !! "analyzed_objects") in
         if pressed inp "Analyze Photo for Words" then
           match fst (analyze_image_for_words w B fresh_session) with
           | Ret v => v
           | Raise _ => before
           end
         else before).
Proof.
  intros HB. rewrite (page_session _ _ _ B HB). unfold after_capture.
  assert (Hbefore :
    (session_state σ ∪ default_state) !! "analyzed_objects"
      = Some (default (PList []) (session_state σ !! "analyzed_objects"))).
  { rewrite lookup_union.
    by destruct (session_state σ !! "analyzed_objects"). }
  destruct (pressed inp "Analyze Photo for Words");
    [destruct (fst (analyze_image_for_words w B fresh_session))|]; simpl.
  - split.
    + rewrite lookup_insert_ne by done. apply lookup_insert_eq.
    + apply lookup_insert_eq.
  - split; [apply lookup_insert_eq|]. by rewrite lookup_insert_ne.
  - split; [apply lookup_insert_eq|]. by rewrite lookup_insert_ne.
Qed.

(** ** Audio playback *)

Lemma audio_player_absent σ path :
  session_state σ !! "audio_filename" = Some (PStr path) ->
  files σ !! path = None ->
  audio_player σ = (Ret tt, σ).
Proof.
  intros Hs Hf. unfold audio_player.
  unfold bind at 1. rewrite (ss_get_run _ _ _ Hs).
  unfold bind at 1. simpl.
  destruct (negb (path =? "")%string).
  - unfold bind at 1. rewrite (ss_get_run _ _ _ Hs).
    unfold bind at 1. simpl. unfold os_path_exists. rewrite Hf.
    rewrite bool_decide_eq_false_2 by (intros [? ?]; congruence). done.
  - done.
Qed.

(** C2, as the code has it.  With [audio_filename] naming an existing
    file, one run of the playback block reads the file once: its bytes go
    to the player, or, when it cannot be read, one error is drawn.  The
    block then tries to delete the file and says nothing when that fails.
    When the deletion worked the file is gone, and the next run of the
    block draws nothing at all: neither audio nor an error.  When it did
    not, the files are as before. *)
Theorem audio_player_plays_then_deletes
    (σ : Runtime) (path : string) (f : file) :
  session_state σ !! "audio_filename" = Some (PStr path) ->
  path <> "" ->
  files σ !! path = Some f ->
  let σ1 :=
    with_files (extend σ [playback_event path f] [])
      (if f_removable f then delete path (files σ) else files σ) in
  audio_player σ = (Ret tt, σ1) /\
  if f_removable f
  then files σ1 !! path = None /\ audio_player σ1 = (Ret tt, σ1)
  else files σ1 = files σ.
Proof.
  intros Hs Hp Hf σ1.
  assert (E : audio_player σ = (Ret tt, σ1)).
  { unfold audio_player.
    unfold bind at 1. rewrite (ss_get_run _ _ _ Hs).
    unfold bind at 1. simpl.
    apply String.eqb_neq in Hp. rewrite Hp. simpl.
    unfold bind at 1. rewrite (ss_get_run _ _ _ Hs).
    unfold bind at 1. simpl. unfold os_path_exists. rewrite Hf.
    rewrite bool_decide_eq_true_2 by eauto.
    subst σ1. unfold try_finally, try_except, playback_event, with_files,
      extend.
    unfold bind at 1. rewrite (ss_get_run _ _ _ Hs).
    unfold bind at 1. simpl. unfold bind at 1. unfold open_read at 1.
    rewrite Hf. rewrite app_nil_r.
    destruct (f_readable f) eqn:Hr; simpl.
    - unfold bind at 1. unfold ss_get at 1. simpl. rewrite Hs.
      unfold bind at 1. simpl. unfold os_remove. simpl.
      rewrite Hf. by destruct (f_removable f).
    - unfold bind at 1. unfold ss_get at 1. simpl. rewrite Hs.
      unfold bind at 1. simpl. unfold os_remove. simpl.
      rewrite Hf. by destruct (f_removable f). }
  split; [exact E|].
  destruct (f_removable f) eqn:Hd; [|done].
  assert (Hgone : files σ1 !! path = None) by apply lookup_delete_eq.
  split; [exact Hgone|].
  by apply (audio_player_absent σ1 path).
Qed.

(** ** The rows of the results *)

Lemma button_keys_app evs1 evs2 :
  button_keys (evs1 ++ evs2) = (button_keys evs1 ++ button_keys evs2)%list.
Proof. apply omap_app. Qed.

Lemma SynthesisInput_new_exn x : raises_only_Exception (SynthesisInput_new x).
Proof. destruct x; simpl; try done. by destruct (utf8_valid b). Qed.

Lemma get_tts_audio_returns w x σ :
  raises_Exceptions w ->
  exists v evs sent,
    get_tts_audio w x σ = (Ret v, extend σ evs sent) /\
    button_keys evs = [].
Proof.
  intros Hw. unfold get_tts_audio, SynthesisInput_of. run_py.
  pose proof (TextToSpeechClient_exn w Hw) as Hc.
  destruct (TextToSpeechClient w) as [[]|e]; simpl in *.
  - pose proof (SynthesisInput_new_exn x) as Hi.
    destruct (SynthesisInput_new x) as [input|e]; simpl in *.
    + match goal with
      | |- context [synthesize_speech w ?i ?v ?a] =>
          pose proof (synthesize_speech_exn w Hw i v a) as Hs;
          destruct (synthesize_speech w i v a) as [r|e]; simpl in *
      end.
      * eexists _, [], [_]. rewrite app_nil_r. split; reflexivity.
      * rewrite Hs. eexists _, [_], [_]. split; reflexivity.
    + rewrite Hi. eexists _, [_], []. rewrite app_nil_r. split; reflexivity.
  - rewrite Hc. eexists _, [_], []. rewrite app_nil_r. split; reflexivity.
Qed.

Lemma st_button_keyed inp label k σ :
  st_button inp label (Some k) σ =
    if key_taken k (view σ) then (Raise (duplicate_key k), σ)
    else (Ret (pressed inp k), extend σ [UButton label (Some k)] []).
Proof.
  unfold st_button, register_key, bind, emit, ret, extend.
  destruct (key_taken k (view σ)); [done|]. by rewrite app_nil_r.
Qed.

(** The two captions of a row, and its button when the key is free. *)
Lemma object_row_button w inp obj en zh σ :
  english_name_of obj = Some en ->
  chinese_name_of obj = Some zh ->
  object_row w inp obj σ =
    if key_taken ("pronounce_" ++ en) (view σ) then row_refused en zh σ
    else
      bind (if pressed inp ("pronounce_" ++ en) then
              _ <- subscript obj "english_name" ;;
              en <- subscript obj "english_name" ;;
              audio_bytes <- get_tts_audio w en ;;
              if truthy audio_bytes then
                st_audio audio_bytes "audio/mp3"
              else
                en <- subscript obj "english_name" ;;
                st_error ("无法生成 " ++ fmt w en ++ " 的发音")
            else ret tt)
           (fun _ => st_markdown "---")
           (extend σ (row_events_before en zh) []).
Proof.
  intros Hen Hzh. unfold english_name_of, chinese_name_of in *.
  destruct obj as [| | | | | |?|d|]; try discriminate.
  destruct (assoc_get "english_name" d) as [[| | | |en'| | | |]|] eqn:E1;
    try discriminate.
  destruct (assoc_get "chinese_name" d) as [[| | | |zh'| | | |]|] eqn:E2;
    try discriminate.
  injection Hen as ->. injection Hzh as ->.
  unfold object_row, subscript. rewrite E1, E2.
  unfold pronounce_key.
  unfold bind at 1. simpl. unfold bind at 1. simpl. unfold bind at 1. simpl.
  unfold bind at 1. simpl. unfold bind at 1. simpl. unfold bind at 1.
  match goal with
  | |- context [bind (register_key ?k) ?f ?s] =>
      change (bind (register_key k) f s) with (st_button inp "🔊" (Some k) s)
  end.
  rewrite st_button_keyed. simpl.
  replace (key_taken ("pronounce_" ++ en) ((view σ ++ [UMarkdown ("**" ++ en ++ "**")]) ++ [UMarkdown zh]))
    with (key_taken ("pronounce_" ++ en) (view σ)).
  2:{ unfold key_taken. rewrite !button_keys_app. simpl.
      by rewrite !app_nil_r. }
  destruct (key_taken ("pronounce_" ++ en) (view σ)).
  - unfold row_refused, extend. simpl.
    by rewrite <- !app_assoc, app_nil_r.
  - unfold bind at 1. unfold row_events_before, extend. simpl.
    by rewrite <- !app_assoc, !app_nil_r.
Qed.

Lemma object_row_refused w inp obj en zh σ :
  english_name_of obj = Some en ->
  chinese_name_of obj = Some zh ->
  key_taken ("pronounce_" ++ en) (view σ) = true ->
  object_row w inp obj σ = row_refused en zh σ.
Proof.
  intros Hen Hzh Hk.
  rewrite (object_row_button w inp obj en zh σ Hen Hzh).
  by rewrite Hk.
Qed.

(** A row of a well-formed record whose key is free: its four elements
    when its button was not pressed; with the button pressed, the adapter's
    error (if any) and the player or the error of line 166 come before the
    rule. *)
Lemma object_row_run w inp obj en zh σ :
  english_name_of obj = Some en ->
  chinese_name_of obj = Some zh ->
  pressed inp ("pronounce_" ++ en) = false \/ raises_Exceptions w ->
  key_taken ("pronounce_" ++ en) (view σ) = false ->
  exists evs sent,
    object_row w inp obj σ = (Ret tt, extend σ evs sent) /\
    button_keys evs = ["pronounce_" ++ en]%string.
Proof.
  intros Hen Hzh Hp Hk.
  rewrite (object_row_button w inp obj en zh σ Hen Hzh).
  rewrite Hk. clear Hk.
  unfold english_name_of, chinese_name_of in *.
  destruct obj as [| | | | | |?|d|]; try discriminate.
  destruct (assoc_get "english_name" d) as [[| | | |en'| | | |]|] eqn:E1;
    try discriminate.
  injection Hen as ->.
  unfold subscript. rewrite E1.
  destruct (pressed inp ("pronounce_" ++ en)) eqn:Hpress.
  - destruct Hp as [?|Hw]; [done|].
    unfold bind at 1. unfold bind at 1. simpl. unfold bind at 1. simpl.
    unfold bind at 1.
    match goal with |- context [get_tts_audio w _ ?σ0] =>
      destruct (get_tts_audio_returns w (PStr en) σ0 Hw)
        as (v & evs & sent & E & Hk)
    end.
    rewrite E.
    destruct (truthy v); run_py.
    + eexists (row_events_before en zh ++ evs ++ [_; _])%list, sent.
      split.
      * unfold row_events_before. rewrite <- !app_assoc. reflexivity.
      * rewrite !button_keys_app, Hk. reflexivity.
    + eexists (row_events_before en zh ++ evs ++ [_; _])%list, sent.
      split.
      * unfold row_events_before. rewrite <- !app_assoc. reflexivity.
      * rewrite !button_keys_app, Hk. reflexivity.
  - run_py. exists (row_events en zh), []. split; [|done].
    unfold row_events. rewrite app_nil_r. by rewrite <- !app_assoc.
Qed.

Lemma until_repeat_fresh seen keys :
  NoDup (seen ++ keys) -> until_repeat seen keys = (keys, None).
Proof.
  revert seen. induction keys as [|k keys IH]; intros seen Hn; [done|].
  simpl.
  assert (Hk : existsb (String.eqb k) seen = false).
  { apply not_true_is_false. intros H.
    apply existsb_exists in H as (k' & Hin & Heq).
    apply String.eqb_eq in Heq as <-.
    apply NoDup_app in Hn as (_ & Hd & _).
    apply (Hd k); [by apply list_elem_of_In|]. apply elem_of_cons; by left. }
  rewrite Hk, IH; [done|].
  by rewrite <- app_assoc.
Qed.

Lemma until_repeat_held seen pre k post :
  NoDup (seen ++ pre) -> k ∈ (seen ++ pre)%list ->
  until_repeat seen (pre ++ k :: post) = (pre, Some k).
Proof.
  revert seen. induction pre as [|p pre IH]; intros seen Hn Hk; simpl.
  - rewrite app_nil_r in Hk.
    assert (E : existsb (String.eqb k) seen = true).
    { apply existsb_exists. exists k. split; [by apply list_elem_of_In|].
      apply String.eqb_refl. }
    by rewrite E.
  - assert (Hp : existsb (String.eqb p) seen = false).
    { apply not_true_is_false. intros H.
      apply existsb_exists in H as (k' & Hin & Heq).
      apply String.eqb_eq in Heq as <-.
      apply NoDup_app in Hn as (_ & Hd & _).
      apply (Hd p); [by apply list_elem_of_In|]. apply elem_of_cons; by left. }
    rewrite Hp, IH; [done| |].
    + by rewrite <- app_assoc.
    + by rewrite <- app_assoc.
Qed.

(** The rows of a batch of well-formed records, one after the other: the
    buttons take their keys until a key is held already, and there the
    loop ends with the framework's refusal. *)
Lemma rows_run w inp objs σ :
  Forall (fun obj => is_detected_object obj = true) objs ->
  (forall k, pressed inp k = false) \/ raises_Exceptions w ->
  exists evs sent,
    for_each objs (object_row w inp) σ =
      (match snd (until_repeat (button_keys (view σ))
                    (omap row_key objs)) with
       | None => Ret tt
       | Some k => Raise (duplicate_key k)
       end, extend σ evs sent) /\
    button_keys evs =
      fst (until_repeat (button_keys (view σ)) (omap row_key objs)).
Proof.
  intros H Hp. revert σ. induction H as [|obj objs Ho _ IH]; intros σ.
  - exists [], []. simpl. unfold ret. by rewrite extend_nil.
  - unfold is_detected_object in Ho.
    destruct (english_name_of obj) as [en|] eqn:Hen; [|done].
    destruct (chinese_name_of obj) as [zh|] eqn:Hzh; [|done].
    assert (Hrk : row_key obj = Some ("pronounce_" ++ en))
      by (unfold row_key; by rewrite Hen).
    cbn [omap list_omap]. rewrite Hrk.
    cbn [until_repeat].
    change (existsb (String.eqb ("pronounce_" ++ en)) (button_keys (view σ)))
      with (key_taken ("pronounce_" ++ en) (view σ)).
    destruct (key_taken ("pronounce_" ++ en) (view σ)) eqn:Hk.
    + exists [UMarkdown ("**" ++ en ++ "**"); UMarkdown zh], [].
      split; [|done].
      cbn [for_each]. unfold bind.
      by rewrite (object_row_refused w inp obj en zh σ Hen Hzh Hk).
    + destruct (object_row_run w inp obj en zh σ Hen Hzh)
        as (evs1 & sent1 & E1 & Hk1); [|done|].
      { destruct Hp as [Hp|Hw]; [left; apply Hp|by right]. }
      destruct (IH (extend σ evs1 sent1)) as (evs & sent & E & Hks).
      assert (Hv : button_keys (view (extend σ evs1 sent1)) =
                   (button_keys (view σ) ++ [("pronounce_" ++ en)%string])%list).
      { unfold extend. simpl. by rewrite button_keys_app, Hk1. }
      rewrite Hv in E, Hks.
      destruct (until_repeat
                  (button_keys (view σ) ++ [("pronounce_" ++ en)%string])%list
                  (omap row_key objs)) as [drawn dup].
      exists (evs1 ++ evs)%list, (sent1 ++ sent)%list. split.
      * cbn [for_each]. unfold bind. rewrite E1, E.
        unfold extend. simpl. by rewrite <- !app_assoc.
      * rewrite button_keys_app, Hk1, Hks. done.
Qed.

Lemma row_keys_names objs :
  omap row_key objs =
    map (fun en => "pronounce_" ++ en)%string (omap english_name_of objs).
Proof.
  induction objs as [|obj objs IH]; [done|].
  cbn [omap list_omap]. unfold row_key at 1.
  destruct (english_name_of obj); simpl; by rewrite IH.
Qed.

Lemma prefixed_inj (p a b : string) : (p ++ a = p ++ b)%string -> a = b.
Proof.
  induction p as [|c p IH]; [done|].
  intros H. apply IH.
  change (String c (p ++ a) = String c (p ++ b)) in H. by injection H.
Qed.

Lemma NoDup_prefixed (p : string) (l : list string) :
  NoDup l -> NoDup (map (fun s => p ++ s)%string l).
Proof.
  induction 1 as [|a l Ha _ IH]; simpl; constructor; [|done].
  intros Hin. apply Ha. apply list_elem_of_In in Hin.
  apply in_map_iff in Hin as (b & Hb & Hin).
  apply prefixed_inj in Hb as ->. by apply list_elem_of_In.
Qed.

(** The results area over a batch of well-formed records. *)
Lemma analysis_results_area_run w inp σ objs :
  session_state σ !! "analyzed_objects" = Some (PList objs) ->
  Forall (fun obj => is_detected_object obj = true) objs ->
  (forall k, pressed inp k = false) \/ raises_Exceptions w ->
  exists evs sent,
    analysis_results_area w inp σ =
      (match snd (until_repeat (button_keys (view σ))
                    (omap row_key objs)) with
       | None => Ret tt
       | Some k => Raise (duplicate_key k)
       end, extend σ evs sent) /\
    button_keys evs =
      fst (until_repeat (button_keys (view σ)) (omap row_key objs)).
Proof.
  intros Hs Ho Hp.
  unfold analysis_results_area.
  unfold bind at 1. simpl. unfold bind at 1.
  set (σ0 := mk_runtime _ _ _ _).
  assert (Hs0 : session_state σ0 !! "analyzed_objects" = Some (PList objs))
    by exact Hs.
  rewrite (ss_get_run _ _ _ Hs0).
  destruct objs as [|obj objs].
  - exists [UMarkdown "### Analysis Results";
            UInfo "点击 'Analyze Photo for Words' 按钮开始分析图片"], [].
    split; [|done]. simpl.
    unfold st_info, emit, extend. subst σ0. simpl.
    by rewrite <- !app_assoc, !app_nil_r.
  - cbn [truthy]. unfold bind at 1. simpl. unfold bind at 1.
    set (σ1 := mk_runtime _ _ _ _).
    assert (Hs1 : session_state σ1 !! "analyzed_objects"
                  = Some (PList (obj :: objs))) by exact Hs.
    rewrite (ss_get_run _ _ _ Hs1). unfold bind at 1.
    cbn [py_iter ret].
    destruct (rows_run w inp (obj :: objs) σ1 Ho Hp) as (evs & sent & E & Hk).
    assert (Hv : button_keys (view σ1) = button_keys (view σ)).
    { subst σ1 σ0. simpl. rewrite !button_keys_app. simpl.
      by rewrite !app_nil_r. }
    rewrite Hv in E, Hk.
    rewrite E.
    exists ([UMarkdown "### Analysis Results";
             UMarkdown "#### 识别到的物体："] ++ evs)%list, sent.
    split.
    + f_equal. unfold extend. subst σ1 σ0. simpl. by rewrite <- !app_assoc.
    + rewrite button_keys_app. simpl. exact Hk.
Qed.

(** C10.  The key of a row's pronounce button is ["pronounce_"] followed
    by the record's [english_name] and depends on nothing else of the
    record.  So when the page draws a batch of well-formed records (with
    no button pressed, or with libraries that raise [Exception]s only, so
    that no row stops for another reason): if the names are all different,
    every row is drawn and the keys are the names, prefixed, in order; if
    a name [en] repeats an earlier one, the button of the later record is
    requested with the very key the earlier button holds, which the
    framework refuses: the area ends there with the duplicate-key error
    for ["pronounce_" ++ en], the buttons drawn being those of the records
    before. *)
Theorem pronounce_keys_follow_names
    (w : World) (inp : Inputs) (σ : Runtime) (objs : list pyval) :
  session_state σ !! "analyzed_objects" = Some (PList objs) ->
  Forall (fun obj => is_detected_object obj = true) objs ->
  (forall k, pressed inp k = false) \/ raises_Exceptions w ->
  button_keys (view σ) = [] ->
  (forall en, pronounce_key w (PStr en) = "pronounce_" ++ en) /\
  exists evs sent,
    snd (analysis_results_area w inp σ) = extend σ evs sent /\
    (NoDup (omap english_name_of objs) ->
     fst (analysis_results_area w inp σ) = Ret tt /\
     button_keys evs =
       map (fun en => "pronounce_" ++ en)%string
         (omap english_name_of objs)) /\
    (forall pre en post,
       omap english_name_of objs = (pre ++ en :: post)%list ->
       NoDup pre -> en ∈ pre ->
       fst (analysis_results_area w inp σ) =
         Raise (duplicate_key ("pronounce_" ++ en)) /\
       button_keys evs = map (fun en => "pronounce_" ++ en)%string pre).
Proof.
  intros Hs Ho Hp Hv. split; [done|].
  destruct (analysis_results_area_run w inp σ objs Hs Ho Hp)
    as (evs & sent & E & Hk).
  rewrite Hv, row_keys_names in E, Hk.
  exists evs, sent. rewrite E. split; [done|]. split.
  - intros Hn. rewrite Hk. cbn [fst snd].
    rewrite (until_repeat_fresh []); [done|].
    by apply NoDup_prefixed.
  - intros pre en post Hnames Hn Hin. rewrite Hk. cbn [fst snd].
    rewrite Hnames, map_app. cbn [map].
    rewrite (until_repeat_held []); [done| |].
    + by apply NoDup_prefixed.
    + cbn [app]. apply list_elem_of_In, in_map. by apply list_elem_of_In.
Qed.

(** * Further properties of the adapters *)

(** ** The speech adapter, case by case *)

Lemma get_tts_audio_run w s σ :
  get_tts_audio w (PStr s) σ =
    match TextToSpeechClient w with
    | Raise e =>
        if is_Exception e
        then (Ret PNone,
              extend σ [UError ("文本转语音失败: " ++ exn_str e)%string] [])
        else (Raise e, σ)
    | Ret _ =>
        match synthesize_speech w {| input_text := s |}
                fixed_voice fixed_audio_config with
        | Ret r => (Ret (PBytes (audio_content r)), extend σ [] [speech_call s])
        | Raise e =>
            if is_Exception e
            then (Ret PNone,
                  extend σ [UError ("文本转语音失败: " ++ exn_str e)%string]
                    [speech_call s])
            else (Raise e, extend σ [] [speech_call s])
        end
    end.
Proof.
  unfold get_tts_audio, speech_call, fixed_voice, fixed_audio_config.
  change (9 / 10)%float with 0x1.ccccccccccccdp-1%float. run_py.
  destruct (TextToSpeechClient w) as [[]|e]; simpl.
  - match goal with
    | |- context [synthesize_speech w ?i ?v ?a] =>
        destruct (synthesize_speech w i v a) as [r|e]; simpl
    end.
    + by rewrite app_nil_r.
    + destruct (is_Exception e); [done|]. by rewrite app_nil_r.
  - destruct (is_Exception e); [by rewrite app_nil_r|done].
Qed.

(** X1.  When the client is built and the service answers, the adapter
    returns the answer's audio bytes as they are, draws nothing, and has
    sent exactly the one request. *)
Theorem get_tts_audio_success
    (w : World) (s : string) (σ : Runtime) (r : SynthesizeSpeechResponse) :
  TextToSpeechClient w = Ret tt ->
  synthesize_speech w {| input_text := s |} fixed_voice fixed_audio_config
    = Ret r ->
  get_tts_audio w (PStr s) σ =
    (Ret (PBytes (audio_content r)), extend σ [] [speech_call s]).
Proof. intros Hc Hs. rewrite get_tts_audio_run. by rewrite Hc, Hs. Qed.

(** X2.  Whatever the libraries do, the speech adapter leaves the session
    state and the local files alone; all it draws is at most one error. *)
Theorem get_tts_audio_effects (w : World) (x : pyval) (σ : Runtime) :
  exists evs sent,
    snd (get_tts_audio w x σ) = extend σ evs sent /\
    at_most_one_error evs /\ length sent <= 1.
Proof.
  assert (Hsome : forall msg, at_most_one_error [UError msg])
    by (right; eauto).
  assert (Hnone : at_most_one_error []) by by left.
  unfold get_tts_audio, SynthesisInput_of. run_py.
  destruct (TextToSpeechClient w) as [[]|e]; simpl.
  - destruct (SynthesisInput_new x) as [input|e]; simpl.
    2:{ destruct (is_Exception e); simpl; [eexists [_], []|eexists [], []];
          (split; [by rewrite ?app_nil_r, ?runtime_eta|]);
          (split; [done|simpl; lia]). }
    match goal with
    | |- context [synthesize_speech w ?i ?v ?a] =>
        destruct (synthesize_speech w i v a) as [r|e]; simpl
    end.
    + eexists [], [_]. rewrite app_nil_r. split; [reflexivity|].
      split; [done|simpl; lia].
    + destruct (is_Exception e); simpl; [eexists [_], [_]|eexists [], [_]];
        (split; [by rewrite ?app_nil_r|]); (split; [done|simpl; lia]).
  - destruct (is_Exception e); simpl; [eexists [_], []|eexists [], []];
      (split; [by rewrite ?app_nil_r, ?runtime_eta|]);
      (split; [done|simpl; lia]).
Qed.

(** ** The image adapter, independent of the runtime it starts from *)

Lemma analyze_from w b σ :
  analyze_image_for_words w b σ =
    (fst (analysis w b),
     extend σ (view (snd (analysis w b))) (remote_calls (snd (analysis w b)))).
Proof.
  unfold analysis, analyze_image_for_words. run_py.
  destruct (Image_open w b) as [image|e]; simpl.
  2:{ destruct (is_Exception e); simpl;
        by rewrite ?app_nil_r, ?runtime_eta. }
  destruct (generate_content w _ prompt image) as [response|e]; simpl.
  2:{ destruct (is_Exception e); simpl; by rewrite ?app_nil_r. }
  destruct (text response) as [raw|e]; simpl.
  2:{ destruct (is_JSONDecodeError e); simpl; [done|].
      destruct (is_Exception e); simpl; by rewrite ?app_nil_r. }
  destruct (_ && _); simpl; [|done].
  destruct (json_loads w (strip raw)) as [v|e]; simpl.
  { by rewrite app_nil_r. }
  destruct (is_JSONDecodeError e); simpl; [done|].
  destruct (is_Exception e); simpl; by rewrite ?app_nil_r.
Qed.

(** X3.  Whatever the libraries do, the image adapter leaves the session
    state and the local files alone and draws at most one error.  It sends
    one request, with the fixed model name and prompt and the decoded
    image, exactly when the photo decodes; otherwise it sends none. *)
Theorem analyze_effects (w : World) (image_bytes : bytes) (σ : Runtime) :
  exists evs,
    snd (analyze_image_for_words w image_bytes σ) =
      extend σ evs
        match Image_open w image_bytes with
        | Ret image => [analysis_call image]
        | Raise _ => []
        end /\
    at_most_one_error evs.
Proof.
  assert (Hsome : forall msg, at_most_one_error [UError msg])
    by (right; eauto).
  assert (Hnone : at_most_one_error []) by by left.
  unfold analyze_image_for_words, analysis_call. run_py.
  destruct (Image_open w image_bytes) as [image|e]; simpl.
  2:{ destruct (is_Exception e); simpl;
        [eexists [_]|exists []];
        (split; [by rewrite ?app_nil_r, ?runtime_eta|done]). }
  destruct (generate_content w _ prompt image) as [response|e]; simpl.
  2:{ destruct (is_Exception e); simpl;
        [eexists [_]|exists []];
        (split; [by rewrite ?app_nil_r|done]). }
  destruct (text response) as [raw|e]; simpl.
  2:{ destruct (is_JSONDecodeError e); simpl; [by eexists [_]|].
      destruct (is_Exception e); simpl;
        [eexists [_]|exists []];
        (split; [by rewrite ?app_nil_r|done]). }
  destruct (_ && _); simpl; [|by eexists [_]].
  destruct (json_loads w (strip raw)) as [v|e]; simpl.
  { exists []. split; [by rewrite ?app_nil_r|done]. }
  destruct (is_JSONDecodeError e); simpl; [by eexists [_]|].
  destruct (is_Exception e); simpl;
    [eexists [_]|exists []];
    (split; [by rewrite ?app_nil_r|done]).
Qed.

(** X4.  The adapter's [except Exception] does not catch what is not an
    [Exception]: when the model call is cut short by an interrupt or an
    exit request, that exception leaves the adapter, no error is drawn and
    no list is returned. *)
Theorem analyze_propagates_interrupt
    (w : World) (image_bytes : bytes) (σ : Runtime) (image : Image)
    (e : exn) :
  Image_open w image_bytes = Ret image ->
  generate_content w "gemini-pro-vision" prompt image = Raise e ->
  is_Exception e = false ->
  analyze_image_for_words w image_bytes σ =
    (Raise e, extend σ [] [analysis_call image]).
Proof.
  intros Hi Hr He. unfold analyze_image_for_words, analysis_call. run_py.
  rewrite Hi. simpl. rewrite Hr. simpl. rewrite He. by rewrite app_nil_r.
Qed.

(** * Further properties of the page *)

(** ** Pressing a pronounce button *)

Lemma extend_extend σ evs1 sent1 evs2 sent2 :
  extend (extend σ evs1 sent1) evs2 sent2 =
    extend σ (evs1 ++ evs2) (sent1 ++ sent2).
Proof. unfold extend. simpl. by rewrite <- !app_assoc. Qed.

Lemma object_row_pressed w inp obj en zh σ :
  english_name_of obj = Some en ->
  chinese_name_of obj = Some zh ->
  pressed inp ("pronounce_" ++ en) = true ->
  object_row w inp obj σ =
    if key_taken ("pronounce_" ++ en) (view σ) then row_refused en zh σ
    else
      match get_tts_audio w (PStr en)
              (extend σ (row_events_before en zh) []) with
      | (Ret v, σ') =>
          (Ret tt,
           extend σ'
             [ if truthy v then UAudio v "audio/mp3"
               else UError ("无法生成 " ++ en ++ " 的发音")%string;
               UMarkdown "---" ] [])
      | (Raise e, σ') => (Raise e, σ')
      end.
Proof.
  intros Hen Hzh Hp.
  rewrite (object_row_button w inp obj en zh σ Hen Hzh).
  destruct (key_taken ("pronounce_" ++ en) (view σ)); [done|].
  rewrite Hp.
  unfold english_name_of in Hen.
  destruct obj as [| | | | | |?|d|]; try discriminate.
  destruct (assoc_get "english_name" d) as [[| | | |en'| | | |]|] eqn:E1;
    try discriminate.
  injection Hen as ->.
  unfold subscript. rewrite E1.
  unfold bind at 1. unfold bind at 1. simpl. unfold bind at 1. simpl.
  unfold bind at 1.
  match goal with |- context [get_tts_audio w _ ?σ0] =>
    destruct (get_tts_audio w (PStr en) σ0) as [[v|e] σ']
  end; [|done].
  destruct (truthy v); run_py; by rewrite app_nil_r, <- !app_assoc.
Qed.

(** X5.  Pressing the pronounce button of a well-formed row whose name the
    service can synthesise to non-empty audio draws, after the row's two
    captions and button, an MP3 player holding exactly these bytes, then
    the rule; no error appears.  Only on a page that holds the row's key
    already is the button refused, after the two captions. *)
Theorem pronounce_plays_audio
    (w : World) (inp : Inputs) (obj : pyval) (en zh : string) (σ : Runtime)
    (r : SynthesizeSpeechResponse) :
  english_name_of obj = Some en ->
  chinese_name_of obj = Some zh ->
  pressed inp ("pronounce_" ++ en) = true ->
  TextToSpeechClient w = Ret tt ->
  synthesize_speech w {| input_text := en |} fixed_voice fixed_audio_config
    = Ret r ->
  audio_content r <> [] ->
  object_row w inp obj σ =
    if key_taken ("pronounce_" ++ en) (view σ) then row_refused en zh σ
    else
      (Ret tt,
       extend σ
         (row_events_before en zh ++
          [UAudio (PBytes (audio_content r)) "audio/mp3"; UMarkdown "---"])
         [speech_call en]).
Proof.
  intros Hen Hzh Hp Hc Hs Hne.
  rewrite (object_row_pressed w inp obj en zh σ Hen Hzh Hp).
  destruct (key_taken ("pronounce_" ++ en) (view σ)); [done|].
  rewrite get_tts_audio_run, Hc, Hs. simpl.
  destruct (audio_content r); [done|].
  by rewrite !extend_extend, !app_nil_r.
Qed.

(** X6.  When the service answers with empty audio, the pressed row shows
    the error of line 166 ("cannot generate the pronunciation") and no
    player, although the adapter itself reported nothing: empty bytes are
    falsy at line 162.  Only on a page that holds the row's key already is
    the button refused, after the two captions. *)
Theorem pronounce_empty_audio_is_an_error
    (w : World) (inp : Inputs) (obj : pyval) (en zh : string) (σ : Runtime)
    (r : SynthesizeSpeechResponse) :
  english_name_of obj = Some en ->
  chinese_name_of obj = Some zh ->
  pressed inp ("pronounce_" ++ en) = true ->
  TextToSpeechClient w = Ret tt ->
  synthesize_speech w {| input_text := en |} fixed_voice fixed_audio_config
    = Ret r ->
  audio_content r = [] ->
  object_row w inp obj σ =
    if key_taken ("pronounce_" ++ en) (view σ) then row_refused en zh σ
    else
      (Ret tt,
       extend σ
         (row_events_before en zh ++
          [UError ("无法生成 " ++ en ++ " 的发音")%string; UMarkdown "---"])
         [speech_call en]).
Proof.
  intros Hen Hzh Hp Hc Hs He.
  rewrite (object_row_pressed w inp obj en zh σ Hen Hzh Hp).
  destruct (key_taken ("pronounce_" ++ en) (view σ)); [done|].
  rewrite get_tts_audio_run, Hc, Hs, He. simpl.
  by rewrite !extend_extend, !app_nil_r.
Qed.

(** X7.  When the synthesis call raises an [Exception], the pressed row
    shows two errors in a row: the adapter's own message with the
    exception's text, then the page's message of line 166; no player is
    drawn and the page goes on to the rule.  Only on a page that holds the
    row's key already is the button refused, after the two captions. *)
Theorem pronounce_failure_shows_two_errors
    (w : World) (inp : Inputs) (obj : pyval) (en zh : string) (σ : Runtime)
    (e : exn) :
  english_name_of obj = Some en ->
  chinese_name_of obj = Some zh ->
  pressed inp ("pronounce_" ++ en) = true ->
  TextToSpeechClient w = Ret tt ->
  synthesize_speech w {| input_text := en |} fixed_voice fixed_audio_config
    = Raise e ->
  is_Exception e = true ->
  object_row w inp obj σ =
    if key_taken ("pronounce_" ++ en) (view σ) then row_refused en zh σ
    else
      (Ret tt,
       extend σ
         (row_events_before en zh ++
          [UError ("文本转语音失败: " ++ exn_str e)%string;
           UError ("无法生成 " ++ en ++ " 的发音")%string; UMarkdown "---"])
         [speech_call en]).
Proof.
  intros Hen Hzh Hp Hc Hs He.
  rewrite (object_row_pressed w inp obj en zh σ Hen Hzh Hp).
  destruct (key_taken ("pronounce_" ++ en) (view σ)); [done|].
  rewrite get_tts_audio_run, Hc, Hs, He. simpl.
  by rewrite !extend_extend, !app_nil_r.
Qed.

(** ** A record the rows cannot draw *)

Lemma bind_assoc_run {A B C} (m : Py A) (k : A -> Py B) (h : B -> Py C) σ :
  bind (bind m k) h σ = bind m (fun a => bind (k a) h) σ.
Proof. unfold bind. by destruct (m σ) as [[a|e] σ']. Qed.

Lemma for_each_app {A} (l1 l2 : list A) body σ :
  for_each (l1 ++ l2) body σ =
    bind (for_each l1 body) (fun _ => for_each l2 body) σ.
Proof.
  revert σ. induction l1 as [|x l1 IH]; intros σ; simpl; [done|].
  unfold bind at 1. rewrite bind_assoc_run. unfold bind at 1.
  destruct (body x σ) as [[[]|e] σ']; [|done].
  apply IH.
Qed.

Lemma analysis_results_area_rows w inp σ obj objs :
  session_state σ !! "analyzed_objects" = Some (PList (obj :: objs)) ->
  analysis_results_area w inp σ =
    for_each (obj :: objs) (object_row w inp)
      (extend σ [ UMarkdown "### Analysis Results";
                  UMarkdown "#### 识别到的物体：" ] []).
Proof.
  intros Hs. unfold analysis_results_area.
  unfold bind at 1. simpl. unfold bind at 1.
  set (σ0 := mk_runtime _ _ _ _).
  assert (Hs0 : session_state σ0 !! "analyzed_objects"
                = Some (PList (obj :: objs))) by exact Hs.
  rewrite (ss_get_run _ _ _ Hs0). simpl.
  unfold bind at 1. simpl. unfold bind at 1.
  set (σ1 := mk_runtime _ _ _ _).
  assert (Hs1 : session_state σ1 !! "analyzed_objects"
                = Some (PList (obj :: objs))) by exact Hs.
  rewrite (ss_get_run _ _ _ Hs1). unfold bind at 1. simpl.
  subst σ1 σ0. unfold extend. simpl.
  by rewrite <- !app_assoc, app_nil_r.
Qed.

Lemma object_row_error w inp obj e σ :
  row_error obj = Some e ->
  exists evs,
    object_row w inp obj σ = (Raise e, extend σ evs []) /\
    button_keys evs = [].
Proof.
  intros He. unfold row_error in He. unfold object_row.
  destruct obj as [| | | | | |?|d|];
    try (injection He as <-; exists []; by rewrite extend_nil).
  unfold subscript.
  destruct (assoc_get "english_name" d) as [en|].
  2:{ injection He as <-. exists []. by rewrite extend_nil. }
  destruct (assoc_get "chinese_name" d) as [zh|]; [done|].
  injection He as <-. eexists [_]. run_py. by rewrite app_nil_r.
Qed.

(** X8.  The rows are drawn in order until a record that is not a dict
    (TypeError) or lacks [english_name] or [chinese_name] (KeyError): when
    the records before it are well formed with names that are all
    different, and the page holds no key yet, that exception ends the
    results area, the records before it have their buttons on the page,
    and neither the bad record nor any record after it gets one. *)
Theorem results_area_stops_at_bad_record
    (w : World) (inp : Inputs) (σ : Runtime)
    (good : list pyval) (bad : pyval) (rest : list pyval) (e : exn) :
  session_state σ !! "analyzed_objects"
    = Some (PList (good ++ bad :: rest)) ->
  Forall (fun obj => is_detected_object obj = true) good ->
  NoDup (omap english_name_of good) ->
  button_keys (view σ) = [] ->
  (forall k, pressed inp k = false) \/ raises_Exceptions w ->
  row_error bad = Some e ->
  exists evs sent,
    analysis_results_area w inp σ = (Raise e, extend σ evs sent) /\
    button_keys evs =
      map (fun en => "pronounce_" ++ en)%string (omap english_name_of good).
Proof.
  intros Hs Hgood Hn Hv Hp He.
  assert (exists obj objs, (good ++ bad :: rest)%list = obj :: objs)
    as (o & os & E).
  { destruct good; simpl; eauto. }
  rewrite E in Hs. rewrite (analysis_results_area_rows _ _ _ _ _ Hs), <- E.
  rewrite for_each_app. unfold bind.
  destruct (rows_run w inp good
              (extend σ [ UMarkdown "### Analysis Results";
                          UMarkdown "#### 识别到的物体：" ] []) Hgood Hp)
    as (evs1 & sent1 & E1 & Hk1).
  assert (Hv0 : button_keys (view (extend σ
              [ UMarkdown "### Analysis Results";
                UMarkdown "#### 识别到的物体：" ] [])) = []).
  { unfold extend. simpl. by rewrite button_keys_app, Hv. }
  rewrite Hv0, row_keys_names in E1, Hk1.
  rewrite (until_repeat_fresh []) in E1, Hk1 by by apply NoDup_prefixed.
  cbn [fst snd] in E1, Hk1.
  rewrite E1. simpl. unfold bind.
  destruct (object_row_error w inp bad e (extend (extend σ
              [ UMarkdown "### Analysis Results";
                UMarkdown "#### 识别到的物体：" ] []) evs1 sent1) He)
    as (evs2 & E2 & Hk2).
  rewrite E2. eexists _, _. split.
  - by rewrite !extend_extend.
  - rewrite !button_keys_app, Hk1, Hk2. simpl. by rewrite app_nil_r.
Qed.

(** ** The session fields a run can change *)

Lemma capture_section_no_photo w inp σ :
  camera_photo inp = None ->
  capture_section w inp σ = (Ret tt, extend σ [UCameraInput "Take Photo"] []).
Proof.
  intros H. unfold capture_section. rewrite H. run_py. by rewrite app_nil_r.
Qed.

Lemma page_session_no_photo w inp σ :
  camera_photo inp = None ->
  session_state (snd (page w inp σ)) = session_state σ ∪ default_state.
Proof.
  intros H. unfold page.
  erewrite session_bind_ret by apply init_session_state_run.
  unfold bind at 1. simpl. unfold bind at 1. simpl.
  rewrite session_bind_keeps by (unfold st_button; keeps).
  by rewrite (capture_section_no_photo _ _ _ H).
Qed.

(** X9.  A run with no photo in the camera writes nothing to the session
    beyond the defaults of absent fields: a photo stored by an earlier run
    stays in [current_image] and its analysis stays in
    [analyzed_objects]. *)
Theorem page_without_photo_keeps_session
    (w : World) (inp : Inputs) (σ : Runtime) :
  camera_photo inp = None ->
  session_state (snd (page w inp σ)) = session_state σ ∪ default_state.
Proof. apply page_session_no_photo. Qed.

Lemma page_session_other_field w inp σ field :
  field <> "current_image" ->
  field <> "analyzed_objects" ->
  session_state (snd (page w inp σ)) !! field
    = (session_state σ ∪ default_state) !! field.
Proof.
  intros H1 H2. destruct (camera_photo inp) as [B|] eqn:HB.
  - rewrite (page_session _ _ _ B HB). unfold after_capture.
    destruct (pressed inp "Analyze Photo for Words");
      [destruct (fst (analyze_image_for_words w B fresh_session))|];
      by rewrite ?lookup_insert_ne.
  - by rewrite page_session_no_photo.
Qed.

(** X10.  Whatever the inputs and the libraries, a run changes no session
    field other than [current_image] and [analyzed_objects]: every other
    field keeps its value, or gets its default when it was absent.  So the
    conversation, the feedback log, the audio file name and the recording
    flag are never written after initialisation. *)
Theorem page_writes_two_fields_only
    (w : World) (inp : Inputs) (σ : Runtime) (field : string) :
  field <> "current_image" ->
  field <> "analyzed_objects" ->
  session_state (snd (page w inp σ)) !! field
    = (session_state σ ∪ default_state) !! field.
Proof. apply page_session_other_field. Qed.

(** ** The files a run can touch *)

Create HintDb files discriminated.

Lemma files_ret {A} (a : A) : keeps_files (ret a).
Proof. by intros σ. Qed.

Lemma files_raise {A} e : keeps_files (@raise A e).
Proof. by intros σ. Qed.

Lemma files_lift {A} (r : outcome A) : keeps_files (lift r).
Proof. by intros σ. Qed.

Lemma files_emit ev : keeps_files (emit ev).
Proof. by intros σ. Qed.

Lemma files_record_call c : keeps_files (record_call c).
Proof. by intros σ. Qed.

Lemma files_ss_set field v : keeps_files (ss_set field v).
Proof. by intros σ. Qed.

Lemma files_ss_get field : keeps_files (ss_get field).
Proof. intros σ. unfold ss_get. by destruct (session_state σ !! field). Qed.

Lemma files_ss_contains field : keeps_files (ss_contains field).
Proof. by intros σ. Qed.

Lemma files_bind {A B} (m : Py A) (k : A -> Py B) :
  keeps_files m -> (forall a, keeps_files (k a)) -> keeps_files (bind m k).
Proof.
  intros Hm Hk σ. unfold bind. specialize (Hm σ).
  destruct (m σ) as [[a|e] σ']; simpl in *; [|done].
  by rewrite Hk.
Qed.

Lemma files_try_except {A} (body : Py A) clauses :
  keeps_files body ->
  Forall (fun c => forall e, keeps_files (snd c e)) clauses ->
  keeps_files (try_except body clauses).
Proof.
  intros Hb Hc σ. unfold try_except. specialize (Hb σ).
  destruct (body σ) as [[a|e] σ']; simpl in *; [done|].
  destruct (List.find (fun c => fst c e) clauses) as [c|] eqn:E; [|done].
  apply List.find_some in E as [Hin _].
  rewrite Forall_forall in Hc. rewrite (Hc c); [done|].
  by apply list_elem_of_In.
Qed.

Lemma files_for_each {A} (l : list A) body :
  (forall x, keeps_files (body x)) -> keeps_files (for_each l body).
Proof.
  intros Hb. induction l as [|x l IH]; simpl.
  - apply files_ret.
  - apply files_bind; auto.
Qed.

Lemma files_if {A} (b : bool) (m1 m2 : Py A) :
  keeps_files m1 -> keeps_files m2 -> keeps_files (if b then m1 else m2).
Proof. by destruct b. Qed.

Lemma files_subscript obj key : keeps_files (subscript obj key).
Proof.
  destruct obj; simpl; try apply files_raise.
  destruct (assoc_get key d); [apply files_ret|apply files_raise].
Qed.

Lemma files_py_iter v : keeps_files (py_iter v).
Proof. destruct v; simpl; first [apply files_ret|apply files_raise]. Qed.

Lemma files_getvalue v : keeps_files (getvalue v).
Proof. destruct v; simpl; first [apply files_ret|apply files_raise]. Qed.

Lemma files_SynthesisInput_of v : keeps_files (SynthesisInput_of v).
Proof. apply files_lift. Qed.

Lemma files_register_key k : keeps_files (register_key k).
Proof. intros σ. unfold register_key. by destruct (key_taken k (view σ)). Qed.

Lemma files_st_chat_message name : keeps_files (st_chat_message name).
Proof. destruct name; simpl; first [apply files_emit|apply files_raise]. Qed.

Lemma files_st_error msg : keeps_files (st_error msg).
Proof. apply files_emit. Qed.

Lemma files_st_info msg : keeps_files (st_info msg).
Proof. apply files_emit. Qed.

Lemma files_st_markdown msg : keeps_files (st_markdown msg).
Proof. apply files_emit. Qed.

Lemma files_st_audio data format : keeps_files (st_audio data format).
Proof. apply files_emit. Qed.

Lemma files_st_rerun {A} : keeps_files (@st_rerun A).
Proof. apply files_raise. Qed.

#[local] Hint Resolve files_ret files_raise files_lift files_emit
  files_record_call files_ss_set files_ss_get files_ss_contains
  files_subscript files_py_iter files_getvalue files_SynthesisInput_of
  files_register_key files_st_chat_message
  files_st_error files_st_info files_st_markdown files_st_audio
  files_st_rerun : files.

Ltac keeps_fs :=
  repeat first
    [ progress intros
    | progress cbn [snd]
    | solve [auto with files]
    | apply files_bind
    | apply files_try_except
    | apply files_for_each
    | apply files_if
    | apply Forall_cons_2
    | apply Forall_nil_2 ].

Lemma files_st_button inp label key : keeps_files (st_button inp label key).
Proof. unfold st_button. destruct key; keeps_fs. Qed.

Lemma files_get_tts_audio w v : keeps_files (get_tts_audio w v).
Proof. unfold get_tts_audio. keeps_fs. Qed.

Lemma files_analyze_image_for_words w b :
  keeps_files (analyze_image_for_words w b).
Proof. unfold analyze_image_for_words. keeps_fs. Qed.

#[local] Hint Resolve files_st_button files_get_tts_audio
  files_analyze_image_for_words : files.

Lemma files_object_row w inp obj : keeps_files (object_row w inp obj).
Proof. unfold object_row. keeps_fs. Qed.

#[local] Hint Resolve files_object_row : files.

Lemma files_init_session_state : keeps_files init_session_state.
Proof. unfold init_session_state, init_field. keeps_fs. Qed.

Lemma files_capture_section w inp : keeps_files (capture_section w inp).
Proof.
  unfold capture_section, analysis_results_area.
  destruct (camera_photo inp); keeps_fs.
Qed.

Lemma files_chat_history : keeps_files chat_history.
Proof. unfold chat_history. keeps_fs. Qed.

Lemma files_coach_feedback : keeps_files coach_feedback.
Proof. unfold coach_feedback. keeps_fs. Qed.

#[local] Hint Resolve files_init_session_state files_capture_section
  files_chat_history files_coach_feedback : files.

Lemma files_as_path v : keeps_files (as_path v).
Proof. destruct v; simpl; first [apply files_ret|apply files_raise]. Qed.

Lemma files_os_path_exists path : keeps_files (os_path_exists path).
Proof. by intros σ. Qed.

Lemma files_open_read path : keeps_files (open_read path).
Proof.
  intros σ. unfold open_read.
  destruct (files σ !! path) as [f|]; [|done]. by destruct (f_readable f).
Qed.

#[local] Hint Resolve files_as_path files_os_path_exists files_open_read
  : files.

Lemma audio_path_defaults ss : audio_path (ss ∪ default_state) = audio_path ss.
Proof.
  unfold audio_path. rewrite <- (assoc_L (∪)).
  by rewrite (map_union_idemp default_state).
Qed.

Lemma audio_path_insert ss field v :
  field <> "audio_filename" -> audio_path (<[field := v]> ss) = audio_path ss.
Proof.
  intros H. unfold audio_path. rewrite !lookup_union.
  by rewrite lookup_insert_ne.
Qed.

Lemma audio_path_lookup ss path :
  ss !! "audio_filename" = Some (PStr path) -> audio_path ss = Some path.
Proof. intros H. unfold audio_path. rewrite lookup_union, H. done. Qed.

Lemma audio_path_lookup_bytes ss b :
  ss !! "audio_filename" = Some (PBytes b) ->
  audio_path ss = Some (string_of_list_byte b).
Proof. intros H. unfold audio_path. rewrite lookup_union, H. done. Qed.

Lemma keeps_audio_of_keeps {A} (m : Py A) :
  keeps_session m -> keeps_files m -> keeps_audio m.
Proof. intros Hs Hf σ. by rewrite Hs, Hf. Qed.

Lemma keeps_audio_init : keeps_audio init_session_state.
Proof.
  intros σ. rewrite init_session_state_run. simpl.
  by rewrite audio_path_defaults.
Qed.

Lemma keeps_audio_capture_section w inp : keeps_audio (capture_section w inp).
Proof.
  intros σ. split; [apply files_capture_section|].
  destruct (camera_photo inp) as [B|] eqn:HB.
  - rewrite (capture_section_session _ _ _ B HB). unfold after_capture.
    destruct (pressed inp "Analyze Photo for Words");
      [destruct (fst (analyze_image_for_words w B fresh_session))|];
      by rewrite !audio_path_insert.
  - by rewrite (capture_section_no_photo _ _ _ HB).
Qed.

Lemma deletes_bind_l {A B} (m : Py A) (k : A -> Py B) :
  keeps_audio m -> (forall a, deletes_at_most_audio (k a)) ->
  deletes_at_most_audio (bind m k).
Proof.
  intros Hm Hk σ. unfold bind. destruct (Hm σ) as [Hf Hp].
  destruct (m σ) as [[a|e] σ']; simpl in *; [|by left].
  rewrite <- Hf, <- Hp. apply Hk.
Qed.

Lemma deletes_bind_r {A B} (m : Py A) (k : A -> Py B) :
  deletes_at_most_audio m -> (forall a, keeps_files (k a)) ->
  deletes_at_most_audio (bind m k).
Proof.
  intros Hm Hk σ. unfold bind. specialize (Hm σ).
  destruct (m σ) as [[a|e] σ']; simpl in *; [|done].
  by rewrite (Hk a σ').
Qed.

Lemma audio_player_deletes_at_most_audio : deletes_at_most_audio audio_player.
Proof.
  intros σ.
  enough (exists fs',
            files (snd (audio_player σ)) = fs' /\
            (fs' = files σ \/
             exists path, audio_path (session_state σ) = Some path /\
                          fs' = delete path (files σ)))
    as (fs' & -> & H) by exact H.
  unfold audio_player. unfold bind at 1.
  destruct (session_state σ !! "audio_filename") as [v|] eqn:Hs.
  2:{ unfold ss_get. rewrite Hs. eexists. split; [reflexivity|by left]. }
  rewrite (ss_get_run _ _ _ Hs). unfold bind at 1.
  destruct (truthy v); [|eexists; split; [reflexivity|by left]].
  unfold bind at 1. rewrite (ss_get_run _ _ _ Hs).
  assert ((exists path, as_path v = ret path /\
                        audio_path (session_state σ) = Some path) \/
          exists e, as_path v = raise e)
    as [(path & Hv & Hpath)|(e & Hv)].
  { destruct v as [| | | |path|b| | |]; try (right; by eexists).
    - left. exists path. split; [done|by apply audio_path_lookup].
    - left. exists (string_of_list_byte b).
      split; [done|by apply audio_path_lookup_bytes]. }
  2:{ rewrite Hv. eexists; split; [reflexivity|by left]. }
  rewrite Hv.
  unfold bind at 1. unfold ret at 1. unfold os_path_exists.
  destruct (bool_decide _); [|eexists; split; [reflexivity|by left]].
  unfold try_finally.
  match goal with |- context [let '(_, _) := ?body σ in _] =>
    assert (Hbody : keeps_files body) by keeps_fs;
    assert (Hsess : keeps_session body) by keeps;
    specialize (Hbody σ); specialize (Hsess σ);
    destruct (body σ) as [r σ1]
  end.
  simpl in Hbody, Hsess. unfold try_except. unfold bind at 1.
  rewrite <- Hsess in Hs. rewrite (ss_get_run _ _ _ Hs).
  rewrite Hv. unfold bind at 1. unfold ret at 1.
  unfold os_remove. rewrite Hsess in Hs. rewrite Hbody.
  destruct (files σ !! path) as [f|] eqn:Hf.
  - destruct (f_removable f); simpl.
    + eexists. split; [reflexivity|]. right. exists path.
      split; [done|simpl; congruence].
    + eexists. split; [reflexivity|by left].
  - simpl. eexists. split; [reflexivity|by left].
Qed.

Lemma page_deletes_at_most_audio w inp : deletes_at_most_audio (page w inp).
Proof.
  unfold page.
  apply deletes_bind_l; [apply keeps_audio_init|intros _].
  apply deletes_bind_l; [apply keeps_audio_of_keeps; [keeps|keeps_fs]|intros _].
  apply deletes_bind_l; [apply keeps_audio_of_keeps; [keeps|keeps_fs]|intros _].
  apply deletes_bind_l; [apply keeps_audio_capture_section|intros _].
  apply deletes_bind_l; [apply keeps_audio_of_keeps; [keeps|keeps_fs]|intros _].
  apply deletes_bind_l; [apply keeps_audio_of_keeps; [keeps|keeps_fs]|intros _].
  apply deletes_bind_l; [apply keeps_audio_of_keeps; [keeps|keeps_fs]|intros _].
  apply deletes_bind_l; [apply keeps_audio_of_keeps; [keeps|keeps_fs]|intros _].
  apply deletes_bind_l; [apply keeps_audio_of_keeps; [keeps|keeps_fs]|intros _].
  apply deletes_bind_r; [apply audio_player_deletes_at_most_audio|intros _].
  keeps_fs.
Qed.

(** X11.  A run never creates or changes a local file, and the only file
    it can delete is the one [audio_filename] names: afterwards the files
    are the files before, or the files before without that one path. *)
Theorem page_deletes_at_most_audio_file
    (w : World) (inp : Inputs) (σ : Runtime) :
  files (snd (page w inp σ)) = files σ \/
  exists path,
    audio_path (session_state σ) = Some path /\
    files (snd (page w inp σ)) = delete path (files σ).
Proof. apply page_deletes_at_most_audio. Qed.

(** ** What a whole session cannot reach *)

Lemma quiet_audio_path ss : quiet ss -> audio_path ss = None.
Proof.
  intros H. unfold quiet in H. rewrite Forall_forall in H.
  assert (Hin : "audio_filename" ∈ inert_fields)
    by (unfold inert_fields; do 2 right; left).
  unfold audio_path. rewrite lookup_union.
  destruct (H _ Hin) as [->| ->]; done.
Qed.

Lemma inert_fields_not_written field :
  field ∈ inert_fields ->
  field <> "current_image" /\ field <> "analyzed_objects".
Proof.
  unfold inert_fields. intros Hin.
  repeat (apply elem_of_cons in Hin as [->|Hin]; [done|]).
  by apply elem_of_nil in Hin.
Qed.

Lemma quiet_page w inp σ :
  quiet (session_state σ) ->
  quiet (session_state (snd (page w inp σ))) /\
  files (snd (page w inp σ)) = files σ.
Proof.
  intros H. split.
  - unfold quiet in *. rewrite Forall_forall in *. intros field Hin.
    right. rewrite page_session_other_field.
    + rewrite lookup_union. destruct (H field Hin) as [->| ->].
      * by destruct (default_state !! field).
      * by destruct (default_state !! field).
    + by apply inert_fields_not_written.
    + by apply inert_fields_not_written.
  - destruct (page_deletes_at_most_audio w inp σ) as [E|(path & Hp & _)];
      [done|].
    by rewrite quiet_audio_path in Hp.
Qed.

Lemma quiet_run_script w inp σ :
  quiet (session_state σ) ->
  quiet (session_state (snd (run_script w inp σ))) /\
  files (snd (run_script w inp σ)) = files σ.
Proof.
  intros H. unfold run_script, script.
  destruct (secrets w !! "GOOGLE_API_KEY"); [|done].
  by apply (quiet_page w inp (mk_runtime _ _ _ _)).
Qed.

Lemma quiet_interact w inp σ :
  quiet (session_state σ) ->
  quiet (session_state (snd (interact w inp σ))) /\
  files (snd (interact w inp σ)) = files σ.
Proof.
  intros H. unfold interact.
  destruct (quiet_run_script w inp σ H) as [H1 F1].
  destruct (run_script w inp σ) as [[[]|e] σ1]; simpl in *; [done|].
  destruct (exn_cls e); try done.
  destruct (quiet_run_script w (no_press inp) σ1 H1) as [H2 F2].
  by rewrite F2, F1.
Qed.

(** X12.  In a session whose conversation, feedback log, audio file name
    and recording flag are absent or at their defaults (as in a new
    session), they are still so after any number of interactions, whatever
    the user captures, presses or types and whatever the libraries
    answer; and no local file is ever deleted.  So the chat and feedback
    panes never get an entry and the playback block never plays. *)
Theorem quiet_session_stays_quiet
    (w : World) (inps : list Inputs) (σ : Runtime) :
  quiet (session_state σ) ->
  quiet (session_state (interact_all w inps σ)) /\
  files (interact_all w inps σ) = files σ.
Proof.
  revert σ. induction inps as [|inp inps IH]; intros σ H; simpl; [done|].
  destruct (quiet_interact w inp σ H) as [H1 F1].
  destruct (IH _ H1) as [H2 F2]. by rewrite F2, F1.
Qed.

(** ** The controls that do nothing *)

Lemma bind_ext {A B} (m : Py A) (k1 k2 : A -> Py B) σ :
  (forall a σ', k1 a σ' = k2 a σ') -> bind m k1 σ = bind m k2 σ.
Proof. intros H. unfold bind. by destruct (m σ) as [[a|e] σ']. Qed.

Lemma bind_ext2 {A B} (m1 m2 : Py A) (k1 k2 : A -> Py B) σ :
  m1 σ = m2 σ -> (forall a σ', k1 a σ' = k2 a σ') ->
  bind m1 k1 σ = bind m2 k2 σ.
Proof. intros Hm H. unfold bind. rewrite Hm. by destruct (m2 σ) as [[a|e] σ']. Qed.

Lemma for_each_ext {A} (l : list A) (b1 b2 : A -> Py unit) σ :
  (forall x σ', b1 x σ' = b2 x σ') -> for_each l b1 σ = for_each l b2 σ.
Proof.
  intros H. revert σ. induction l as [|x l IH]; intros σ; simpl; [done|].
  unfold bind. rewrite H. by destruct (b2 x σ) as [[[]|e] σ'].
Qed.

Lemma st_button_same inp1 inp2 label key σ :
  pressed inp1 (match key with Some k => k | None => label end)
    = pressed inp2 (match key with Some k => k | None => label end) ->
  st_button inp1 label key σ = st_button inp2 label key σ.
Proof.
  intros H. unfold st_button. destruct key as [k|].
  - unfold bind at 1 3. destruct (register_key k σ) as [[[]|e] σ']; [|done].
    run_py. by rewrite H.
  - run_py. by rewrite H.
Qed.

Lemma st_button_ignored {B} inp1 inp2 label (r1 r2 : Py B) σ :
  (forall σ', r1 σ' = r2 σ') ->
  bind (st_button inp1 label None) (fun _ => r1) σ
    = bind (st_button inp2 label None) (fun _ => r2) σ.
Proof. intros H. unfold st_button. run_py. apply H. Qed.

Section SameLiveInputs.

Variable w : World.
Variables inp1 inp2 : Inputs.
Hypothesis Hsame : same_live_inputs inp1 inp2.

Lemma pronounce_pressed_same en :
  pressed inp1 (pronounce_key w en) = pressed inp2 (pronounce_key w en).
Proof.
  destruct Hsame as [_ H]. apply H; unfold pronounce_key; simpl; discriminate.
Qed.

Lemma object_row_same obj σ : object_row w inp1 obj σ = object_row w inp2 obj σ.
Proof.
  unfold object_row.
  apply bind_ext; intros en σ1. apply bind_ext; intros _ σ2.
  apply bind_ext; intros zh σ3. apply bind_ext; intros _ σ4.
  apply bind_ext; intros en' σ5.
  apply bind_ext2; [|done].
  apply st_button_same, pronounce_pressed_same.
Qed.

Lemma analysis_results_area_same σ :
  analysis_results_area w inp1 σ = analysis_results_area w inp2 σ.
Proof.
  unfold analysis_results_area.
  apply bind_ext; intros _ σ1. apply bind_ext; intros objs σ2.
  destruct (truthy objs); [|done].
  apply bind_ext; intros _ σ3. apply bind_ext; intros objs' σ4.
  apply bind_ext; intros items σ5.
  apply for_each_ext. apply object_row_same.
Qed.

Lemma capture_section_same σ :
  capture_section w inp1 σ = capture_section w inp2 σ.
Proof.
  unfold capture_section. destruct Hsame as [Hc Hp]. rewrite Hc.
  apply bind_ext; intros _ σ0.
  destruct (camera_photo inp2) as [B|]; [|done].
  apply bind_ext; intros _ σ1. apply bind_ext; intros _ σ2.
  apply bind_ext2; [apply st_button_same, Hp; discriminate|].
  intros clicked σ3.
  apply bind_ext; intros _ σ4. apply analysis_results_area_same.
Qed.

Lemma page_same σ : page w inp1 σ = page w inp2 σ.
Proof.
  unfold page.
  apply bind_ext; intros _ σ1. apply bind_ext; intros _ σ2.
  apply bind_ext; intros _ σ3.
  apply bind_ext2; [apply capture_section_same|]. intros _ σ4.
  apply bind_ext; intros _ σ5. apply bind_ext; intros _ σ6.
  apply bind_ext; intros _ σ7.
  apply st_button_ignored; intros σ8.
  apply st_button_ignored; intros σ9.
  apply bind_ext; intros _ σ10. apply bind_ext; intros _ σ11.
  by apply st_button_ignored.
Qed.

End SameLiveInputs.

(** X13.  The text input and the buttons "Start Recording", "Stop
    Recording" and "Send to AI" are inert: two runs whose inputs differ
    only in what was typed and in which of these three buttons were
    pressed draw the same page, leave the same session state and files,
    send the same requests and end the same way. *)
Theorem recording_and_send_controls_are_inert
    (w : World) (inp1 inp2 : Inputs) (σ : Runtime) :
  same_live_inputs inp1 inp2 ->
  page w inp1 σ = page w inp2 σ.
Proof. intros H. by apply page_same. Qed.

(** ** The run in which the analyze button was pressed *)

Lemma page_analyze_run w inp σ B :
  camera_photo inp = Some B ->
  pressed inp "Analyze Photo for Words" = true ->
  page w inp σ =
    let σ1 :=
      mk_runtime
        (<[ "current_image" := PUploadedFile B ]>
           (session_state σ ∪ default_state))
        (files σ)
        (view σ ++ page_top B ++ view (snd (analysis w B)))
        (remote_calls σ ++ remote_calls (snd (analysis w B))) in
    match fst (analysis w B) with
    | Ret v =>
        (Raise rerun_request,
         with_session σ1 (analysed_session (session_state σ) B v))
    | Raise e => (Raise e, σ1)
    end.
Proof.
  intros HB Hp. unfold page.
  erewrite bind_ret_run by apply init_session_state_run.
  unfold bind at 1. simpl. unfold bind at 1. simpl.
  unfold bind at 1. unfold capture_section. rewrite HB.
  unfold bind at 1. simpl. unfold bind at 1. simpl.
  unfold bind at 1. simpl. unfold bind at 1. simpl. rewrite Hp.
  unfold bind at 1. unfold bind at 1.
  match goal with |- context [mk_runtime ?a ?b ?c ?d] =>
    set (σ' := mk_runtime a b c d) end.
  assert (Hcur : session_state σ' !! "current_image"
                 = Some (PUploadedFile B)) by apply lookup_insert_eq.
  rewrite (ss_get_run _ _ _ Hcur). simpl.
  unfold bind at 1. rewrite (ss_get_run _ _ _ Hcur).
  unfold bind at 1. simpl. unfold bind at 1.
  rewrite (analyze_from w B σ').
  destruct (fst (analysis w B)) as [v|e]; simpl.
  - unfold with_session, analysed_session, extend, page_top. subst σ'. simpl.
    by rewrite <- !app_assoc.
  - unfold extend, page_top. subst σ'. simpl. by rewrite <- !app_assoc.
Qed.

(** X14.  In the run where the analyze button was pressed on a photo [B],
    once the adapter has returned [v] the run stores [v] and stops with a
    rerun request: the page of that run ends at the analyze button,
    followed only by what the adapter drew; the results area and
    everything below it are not drawn in that run. *)
Theorem analyze_press_ends_in_rerun
    (w : World) (inp : Inputs) (σ : Runtime) (B : bytes) (v : pyval) :
  camera_photo inp = Some B ->
  pressed inp "Analyze Photo for Words" = true ->
  fst (analysis w B) = Ret v ->
  page w inp σ =
    (Raise rerun_request,
     mk_runtime (analysed_session (session_state σ) B v) (files σ)
       (view σ ++ page_top B ++ view (snd (analysis w B)))
       (remote_calls σ ++ remote_calls (snd (analysis w B)))).
Proof.
  intros HB Hp Hv. rewrite (page_analyze_run w inp σ B HB Hp). simpl.
  by rewrite Hv.
Qed.

(** ** The chat history and the feedback log *)

Lemma for_each_events {A} (l : list A) (body : A -> Py unit)
    (evs : A -> list ui_event) (P : A -> Prop) σ :
  (forall x σ', P x -> body x σ' = (Ret tt, extend σ' (evs x) [])) ->
  Forall P l ->
  for_each l body σ = (Ret tt, extend σ (flat_map evs l) []).
Proof.
  intros Hb Hl. revert σ. induction Hl as [|x l Hx _ IH]; intros σ; simpl.
  - unfold ret. by rewrite extend_nil.
  - unfold bind. rewrite (Hb x σ Hx). rewrite IH.
    by rewrite extend_extend.
Qed.

Lemma chat_history_run (σ : Runtime) (messages : list pyval) :
  session_state σ !! "conversation" = Some (PList messages) ->
  Forall (fun m => is_message m = true) messages ->
  chat_history σ =
    (Ret tt,
     extend σ (UMarkdown chat_style :: flat_map message_events messages) []).
Proof.
  intros Hs Hm. unfold chat_history.
  unfold bind at 1. simpl. unfold bind at 1.
  set (σ0 := mk_runtime _ _ _ _).
  assert (Hs0 : session_state σ0 !! "conversation" = Some (PList messages))
    by exact Hs.
  rewrite (ss_get_run _ _ _ Hs0). unfold bind at 1. simpl.
  rewrite (for_each_events messages _ message_events
             (fun m => is_message m = true)); [|clear|done].
  - subst σ0. unfold extend. simpl. by rewrite <- !app_assoc.
  - intros m σ' H. unfold is_message in H. unfold message_events, subscript.
    destruct m as [| | | | | |?|d|]; try discriminate.
    destruct (assoc_get "role" d) as [[| | | |role| | | |]|];
      try discriminate.
    destruct (assoc_get "text" d) as [body|]; [|discriminate].
    run_py. by rewrite app_nil_r, <- !app_assoc.
Qed.

Lemma coach_feedback_run (σ : Runtime) (entries : list pyval) :
  session_state σ !! "feedback_log" = Some (PList entries) ->
  coach_feedback σ =
    (Ret tt,
     extend σ
       (USubheader "Coach Feedback" :: UMarkdown feedback_style ::
        map UWrite entries) []).
Proof.
  intros Hs. unfold coach_feedback.
  unfold bind at 1. simpl. unfold bind at 1. simpl. unfold bind at 1.
  set (σ0 := mk_runtime _ _ _ _).
  assert (Hs0 : session_state σ0 !! "feedback_log" = Some (PList entries))
    by exact Hs.
  rewrite (ss_get_run _ _ _ Hs0). unfold bind at 1. simpl.
  rewrite (for_each_events entries _ (fun v => [UWrite v]) (fun _ => True)).
  - subst σ0. unfold extend. simpl. rewrite <- !app_assoc. simpl.
    replace (flat_map (fun v => [UWrite v]) entries) with (map UWrite entries);
      [done|].
    clear. induction entries as [|v l IH]; simpl; [done|]. by rewrite IH.
  - intros v σ' _. run_py. by rewrite app_nil_r.
  - by apply Forall_true.
Qed.

(** X15.  The chat history draws the stored messages in their order, each
    as a chat bubble for its role holding its text, after the style
    block, when every message is a dict with a text and a role that is a
    [str]; with an empty conversation it draws the style block only. *)
Theorem chat_history_draws_messages_in_order
    (σ : Runtime) (messages : list pyval) :
  session_state σ !! "conversation" = Some (PList messages) ->
  Forall (fun m => is_message m = true) messages ->
  chat_history σ =
    (Ret tt,
     extend σ (UMarkdown chat_style :: flat_map message_events messages) []).
Proof. apply chat_history_run. Qed.

(** X16.  The feedback pane writes the entries of the feedback log in
    their order, one element each, under its heading and style block. *)
Theorem coach_feedback_writes_entries_in_order
    (σ : Runtime) (entries : list pyval) :
  session_state σ !! "feedback_log" = Some (PList entries) ->
  coach_feedback σ =
    (Ret tt,
     extend σ
       (USubheader "Coach Feedback" :: UMarkdown feedback_style ::
        map UWrite entries) []).
Proof. apply coach_feedback_run. Qed.

(** ** The page of a quiet session, with no button pressed *)

Lemma object_row_quiet w inp obj en σ :
  is_detected_object obj = true ->
  (forall k, pressed inp k = false) ->
  english_name_of obj = Some en ->
  key_taken ("pronounce_" ++ en) (view σ) = false ->
  object_row w inp obj σ = (Ret tt, extend σ (row_of obj) []).
Proof.
  intros Ho Hp Hen Hk. unfold is_detected_object in Ho. unfold row_of.
  rewrite Hen in *.
  destruct (chinese_name_of obj) as [zh|] eqn:Hzh; [|done].
  rewrite (object_row_button w inp obj en zh σ Hen Hzh), Hk, Hp.
  run_py. unfold row_events. by rewrite !app_nil_r, <- !app_assoc.
Qed.

Lemma key_free k seen rest :
  NoDup (seen ++ k :: rest) -> existsb (String.eqb k) seen = false.
Proof.
  intros Hn. apply not_true_is_false. intros H.
  apply existsb_exists in H as (k' & Hin & Heq).
  apply String.eqb_eq in Heq as <-.
  apply NoDup_app in Hn as (_ & Hd & _).
  apply (Hd k); [by apply list_elem_of_In|]. apply elem_of_cons; by left.
Qed.

Lemma button_keys_row_of obj :
  is_detected_object obj = true ->
  button_keys (row_of obj) = omap row_key [obj].
Proof.
  unfold is_detected_object, row_of. cbn [omap list_omap]. unfold row_key.
  destruct (english_name_of obj) as [en|]; [|done].
  by destruct (chinese_name_of obj) as [zh|].
Qed.

Lemma rows_quiet w inp objs σ :
  Forall (fun obj => is_detected_object obj = true) objs ->
  (forall k, pressed inp k = false) ->
  NoDup (button_keys (view σ) ++ omap row_key objs) ->
  for_each objs (object_row w inp) σ =
    (Ret tt, extend σ (flat_map row_of objs) []).
Proof.
  intros Ho Hp. revert σ. induction Ho as [|obj objs Hd _ IH]; intros σ Hn.
  - simpl. unfold ret. by rewrite extend_nil.
  - pose proof Hd as Hd'. unfold is_detected_object in Hd'.
    destruct (english_name_of obj) as [en|] eqn:Hen; [|done].
    assert (Hrk : row_key obj = Some ("pronounce_" ++ en))
      by (unfold row_key; by rewrite Hen).
    cbn [omap list_omap] in Hn. rewrite Hrk in Hn.
    cbn [for_each flat_map]. unfold bind.
    rewrite (object_row_quiet w inp obj en σ Hd Hp Hen).
    2:{ unfold key_taken. by apply (key_free _ _ (omap row_key objs)). }
    rewrite IH.
    + by rewrite extend_extend.
    + unfold extend. cbn [view]. rewrite button_keys_app.
      rewrite (button_keys_row_of obj Hd). cbn [omap list_omap].
      rewrite Hrk. by rewrite <- app_assoc.
Qed.

Lemma results_area_quiet w inp σ objs :
  session_state σ !! "analyzed_objects" = Some (PList objs) ->
  Forall (fun obj => is_detected_object obj = true) objs ->
  NoDup (omap english_name_of objs) ->
  button_keys (view σ) = [] ->
  (forall k, pressed inp k = false) ->
  analysis_results_area w inp σ = (Ret tt, extend σ (results_events objs) []).
Proof.
  intros Hs Ho Hn Hv Hp. destruct objs as [|obj objs].
  - unfold analysis_results_area.
    unfold bind at 1. simpl. unfold bind at 1.
    set (σ0 := mk_runtime _ _ _ _).
    assert (Hs0 : session_state σ0 !! "analyzed_objects" = Some (PList []))
      by exact Hs.
    rewrite (ss_get_run _ _ _ Hs0). simpl. subst σ0.
    unfold st_info, emit, extend, results_events. simpl.
    by rewrite <- !app_assoc, app_nil_r.
  - rewrite (analysis_results_area_rows _ _ _ _ _ Hs).
    rewrite (rows_quiet w inp (obj :: objs) _ Ho Hp).
    + rewrite extend_extend. unfold results_events. by rewrite app_nil_r.
    + unfold extend. cbn [view]. rewrite button_keys_app, Hv.
      rewrite row_keys_names. by apply NoDup_prefixed.
Qed.

Lemma audio_player_none σ :
  session_state σ !! "audio_filename" = Some PNone ->
  audio_player σ = (Ret tt, σ).
Proof.
  intros Hs. unfold audio_player. unfold bind at 1.
  rewrite (ss_get_run _ _ _ Hs). by unfold bind at 1.
Qed.

Lemma quiet_lookup ss field :
  quiet ss -> field ∈ inert_fields ->
  (ss ∪ default_state) !! field = default_state !! field.
Proof.
  intros H Hin. unfold quiet in H. rewrite Forall_forall in H.
  rewrite lookup_union.
  destruct (H field Hin) as [->| ->]; by destruct (default_state !! field).
Qed.

Lemma page_quiet_run w inp σ B objs :
  camera_photo inp = Some B ->
  (forall k, pressed inp k = false) ->
  quiet (session_state σ) ->
  (session_state σ ∪ default_state) !! "analyzed_objects"
    = Some (PList objs) ->
  Forall (fun obj => is_detected_object obj = true) objs ->
  NoDup (omap english_name_of objs) ->
  button_keys (view σ) = [] ->
  page w inp σ =
    (Ret tt,
     mk_runtime
       (<[ "current_image" := PUploadedFile B ]>
          (session_state σ ∪ default_state))
       (files σ)
       (view σ ++ page_top B ++ results_events objs ++ page_bottom)
       (remote_calls σ)).
Proof.
  intros HB Hp Hq Hs Ho Hn Hv.
  assert (Hconv : (session_state σ ∪ default_state) !! "conversation"
                  = Some (PList [])).
  { rewrite (quiet_lookup _ _ Hq); [done|]. unfold inert_fields. left. }
  assert (Hfeed : (session_state σ ∪ default_state) !! "feedback_log"
                  = Some (PList [])).
  { rewrite (quiet_lookup _ _ Hq); [done|].
    unfold inert_fields. right. left. }
  assert (Haudio : (session_state σ ∪ default_state) !! "audio_filename"
                   = Some PNone).
  { rewrite (quiet_lookup _ _ Hq); [done|].
    unfold inert_fields. do 2 right. left. }
  unfold page.
  erewrite bind_ret_run by apply init_session_state_run.
  unfold bind at 1. simpl. unfold bind at 1. simpl.
  unfold bind at 1. unfold capture_section. rewrite HB.
  unfold bind at 1. simpl. unfold bind at 1. simpl.
  unfold bind at 1. simpl. unfold bind at 1. simpl. rewrite Hp.
  unfold bind at 1. simpl.
  erewrite results_area_quiet;
    [|simpl; by rewrite lookup_insert_ne|done|done| |done].
  2:{ simpl. rewrite !button_keys_app, Hv. done. }
  unfold bind at 1. simpl.
  unfold bind at 1.
  erewrite chat_history_run; [|simpl; by rewrite lookup_insert_ne|done].
  unfold bind at 1. simpl. unfold bind at 1. simpl. unfold bind at 1. simpl.
  unfold bind at 1.
  erewrite audio_player_none; [|simpl; by rewrite lookup_insert_ne].
  unfold bind at 1. simpl. unfold bind at 1. simpl.
  erewrite coach_feedback_run; [|simpl; by rewrite lookup_insert_ne].
  unfold extend, page_top, page_bottom. simpl.
  rewrite ?app_nil_r. repeat rewrite <- app_assoc. simpl. reflexivity.
Qed.

(** ** One whole interaction: capture, analyze, rerun *)

Lemma analysed_session_lookup ss B v field :
  analysed_session ss B v !! field =
    if decide (field = "analyzed_objects") then Some v
    else if decide (field = "current_image") then Some (PUploadedFile B)
    else (ss ∪ default_state) !! field.
Proof.
  unfold analysed_session.
  destruct (decide (field = "analyzed_objects")) as [->|H1].
  { apply lookup_insert_eq. }
  rewrite lookup_insert_ne by done.
  destruct (decide (field = "current_image")) as [->|H2].
  { apply lookup_insert_eq. }
  by rewrite lookup_insert_ne.
Qed.

Lemma analysed_session_defaults ss B v :
  <[ "current_image" := PUploadedFile B ]>
    (analysed_session ss B v ∪ default_state) = analysed_session ss B v.
Proof.
  apply map_eq. intros field.
  destruct (decide (field = "current_image")) as [->|H2].
  { rewrite lookup_insert_eq. by rewrite analysed_session_lookup. }
  rewrite lookup_insert_ne by done. rewrite lookup_union.
  rewrite !analysed_session_lookup.
  destruct (decide (field = "analyzed_objects"));
    [by destruct (default_state !! field)|].
  destruct (decide (field = "current_image")); [done|].
  rewrite lookup_union.
  by destruct (ss !! field), (default_state !! field).
Qed.

Lemma quiet_analysed_session ss B v : quiet ss -> quiet (analysed_session ss B v).
Proof.
  intros H. unfold quiet. rewrite Forall_forall. intros field Hin. right.
  destruct (inert_fields_not_written field Hin) as [H1 H2].
  rewrite analysed_session_lookup.
  destruct (decide (field = "analyzed_objects")); [done|].
  destruct (decide (field = "current_image")); [done|].
  by apply quiet_lookup.
Qed.

Lemma interact_analyze_run w inp σ B objs credential :
  secrets w !! "GOOGLE_API_KEY" = Some credential ->
  camera_photo inp = Some B ->
  pressed inp "Analyze Photo for Words" = true ->
  quiet (session_state σ) ->
  fst (analysis w B) = Ret (PList objs) ->
  Forall (fun obj => is_detected_object obj = true) objs ->
  NoDup (omap english_name_of objs) ->
  interact w inp σ =
    (Ret tt,
     mk_runtime (analysed_session (session_state σ) B (PList objs)) (files σ)
       (page_top B ++ results_events objs ++ page_bottom)
       (remote_calls σ ++ remote_calls (snd (analysis w B)))).
Proof.
  intros Hk HB Hp Hq Hv Ho Hn. unfold interact, run_script, script.
  rewrite Hk.
  rewrite (page_analyze_run w inp _ B HB Hp). simpl. rewrite Hv. simpl.
  rewrite (page_quiet_run w (no_press inp) _ B objs); simpl.
  - by rewrite analysed_session_defaults.
  - exact HB.
  - done.
  - by apply quiet_analysed_session.
  - rewrite lookup_union, analysed_session_lookup. simpl. done.
  - exact Ho.
  - exact Hn.
  - done.
Qed.

(** X17.  Capture, analyze, rerun.  In a session with nothing in the chat,
    the feedback log and the audio file name, pressing the analyze button
    on a photo whose analysis returns well-formed records with English
    names that are all different leaves this on the screen: the photo and
    the button, then one row per record in the model's order (English
    name, Chinese name, pronounce button keyed by the English name, rule),
    then the lower part of the page; the records are stored, and the
    interaction ends normally. *)
Theorem analyze_interaction_shows_rows
    (w : World) (inp : Inputs) (σ : Runtime) (B : bytes)
    (objs : list pyval) (credential : string) :
  secrets w !! "GOOGLE_API_KEY" = Some credential ->
  camera_photo inp = Some B ->
  pressed inp "Analyze Photo for Words" = true ->
  quiet (session_state σ) ->
  fst (analysis w B) = Ret (PList objs) ->
  Forall (fun obj => is_detected_object obj = true) objs ->
  NoDup (omap english_name_of objs) ->
  interact w inp σ =
    (Ret tt,
     mk_runtime (analysed_session (session_state σ) B (PList objs)) (files σ)
       (page_top B ++ results_events objs ++ page_bottom)
       (remote_calls σ ++ remote_calls (snd (analysis w B)))).
Proof. apply interact_analyze_run. Qed.

(** X18.  When the adapter fails (it returns the empty list after drawing
    its error), the rerun that line 138 always asks for redraws the page
    without that error: the page the user is left with shows the hint to
    press the analyze button and no error at all, and the records of an
    earlier analysis are gone from [analyzed_objects]. *)
Theorem failed_analysis_leaves_no_error_on_page
    (w : World) (inp : Inputs) (σ : Runtime) (B : bytes)
    (msg : string) (sent : list remote_call) (credential : string) :
  secrets w !! "GOOGLE_API_KEY" = Some credential ->
  camera_photo inp = Some B ->
  pressed inp "Analyze Photo for Words" = true ->
  quiet (session_state σ) ->
  analysis w B = (Ret (PList []), extend fresh_session [UError msg] sent) ->
  errors (view (snd (interact w inp σ))) = [] /\
  view (snd (interact w inp σ)) =
    (page_top B ++
     [ UMarkdown "### Analysis Results";
       UInfo "点击 'Analyze Photo for Words' 按钮开始分析图片" ] ++
     page_bottom)%list /\
  session_state (snd (interact w inp σ)) !! "analyzed_objects"
    = Some (PList []).
Proof.
  intros Hk HB Hp Hq HA.
  rewrite (interact_analyze_run w inp σ B [] credential Hk HB Hp Hq);
    [|by rewrite HA|done|apply NoDup_nil_2].
  simpl. split; [done|]. split; [done|].
  by rewrite analysed_session_lookup.
Qed.

(** * Trimming the model's answer *)

Lemma append_cons a s t : (String a s ++ t)%string = String a (s ++ t).
Proof. reflexivity. Qed.

Lemma append_nil_l t : ("" ++ t)%string = t.
Proof. reflexivity. Qed.

Lemma append_nil_r s : (s ++ "")%string = s.
Proof. induction s as [|a s IH]; [done|]. by rewrite append_cons, IH. Qed.

Lemma append_assoc s1 s2 s3 :
  ((s1 ++ s2) ++ s3)%string = (s1 ++ (s2 ++ s3))%string.
Proof.
  induction s1 as [|a s1 IH]; [done|]. by rewrite !append_cons, IH.
Qed.

Lemma length_append s t :
  String.length (s ++ t) = (String.length s + String.length t)%nat.
Proof.
  induction s as [|a s IH]; [done|]. rewrite append_cons. simpl. by rewrite IH.
Qed.

Lemma prefix_append p r : String.prefix p (p ++ r) = true.
Proof.
  induction p as [|a p IH]; [by destruct r|].
  rewrite append_cons. simpl. by destruct (ascii_dec a a).
Qed.

Lemma prefix_split p s :
  String.prefix p s = true -> exists r, s = (p ++ r)%string.
Proof.
  revert s. induction p as [|a p IH]; intros s H.
  - by exists s.
  - destruct s as [|b s]; [done|]. simpl in H.
    destruct (ascii_dec a b) as [->|]; [|done].
    destruct (IH s H) as [r ->]. by exists r.
Qed.

Lemma substring_all s : substring 0 (String.length s) s = s.
Proof. induction s as [|a s IH]; [done|]. simpl. by rewrite IH. Qed.

Lemma str_drop_append p r : str_drop (String.length p) (p ++ r) = r.
Proof.
  unfold str_drop. induction p as [|a p IH].
  - rewrite append_nil_l. simpl. rewrite Nat.sub_0_r. apply substring_all.
  - rewrite append_cons. simpl. exact IH.
Qed.

(** What [lstrip_with] removes is a run of tokens. *)
Lemma lstrip_with_split ws fuel s :
  exists toks,
    Forall (fun t => In t ws) toks /\
    s = (cat toks ++ lstrip_with ws fuel s)%string.
Proof.
  revert s. induction fuel as [|fuel IH]; intros s; simpl.
  - by exists [].
  - destruct (List.find (fun w => String.prefix w s) ws) as [w|] eqn:E.
    + apply List.find_some in E as [Hin Hp].
      destruct (prefix_split w s Hp) as [r ->].
      rewrite str_drop_append.
      destruct (IH r) as (toks & Ht & Hr).
      exists (w :: toks). split; [by constructor|].
      simpl. rewrite append_assoc. by rewrite <- Hr.
    + by exists [].
Qed.

Lemma find_prefix_no_lead ws a s :
  is_lead ws a = false ->
  List.find (fun w => String.prefix w (String a s)) ws = None.
Proof.
  intros H. destruct (List.find _ ws) as [w|] eqn:E; [|done].
  apply List.find_some in E as [Hin Hp].
  assert (is_lead ws a = true); [|congruence].
  unfold is_lead. apply existsb_exists. exists w. split; [done|].
  destruct w as [|c w]; [done|]. simpl in Hp.
  destruct (ascii_dec c a) as [->|]; [apply Ascii.eqb_refl|done].
Qed.

Lemma lstrip_with_no_lead ws fuel a s :
  is_lead ws a = false ->
  lstrip_with ws fuel (String a s) = String a s.
Proof.
  intros H. destruct fuel; [done|]. cbn -[String.prefix].
  by rewrite find_prefix_no_lead.
Qed.

(** Reversal. *)
Lemma list_ascii_append s t :
  list_ascii_of_string (s ++ t)
    = (list_ascii_of_string s ++ list_ascii_of_string t)%list.
Proof.
  induction s as [|a s IH]; [done|]. rewrite append_cons. simpl. by rewrite IH.
Qed.

Lemma string_of_list_app l1 l2 :
  string_of_list_ascii (l1 ++ l2)
    = (string_of_list_ascii l1 ++ string_of_list_ascii l2)%string.
Proof.
  induction l1 as [|a l1 IH]; [done|]. simpl. by rewrite IH, append_cons.
Qed.

Lemma str_rev_append s t : str_rev (s ++ t) = (str_rev t ++ str_rev s)%string.
Proof.
  unfold str_rev. by rewrite list_ascii_append, rev_app_distr,
    string_of_list_app.
Qed.

Lemma str_rev_involutive s : str_rev (str_rev s) = s.
Proof.
  unfold str_rev. rewrite list_ascii_of_string_of_list_ascii, rev_involutive.
  apply string_of_list_ascii_of_string.
Qed.

Lemma length_string_of_list l :
  String.length (string_of_list_ascii l) = List.length l.
Proof. induction l as [|a l IH]; [done|]. simpl. by rewrite IH. Qed.

Lemma length_list_ascii s :
  List.length (list_ascii_of_string s) = String.length s.
Proof. induction s as [|a s IH]; [done|]. simpl. by rewrite IH. Qed.

Lemma str_rev_length s : String.length (str_rev s) = String.length s.
Proof.
  unfold str_rev.
  by rewrite length_string_of_list, length_rev, length_list_ascii.
Qed.

Lemma str_rev_cat toks : str_rev (cat toks) = cat (map str_rev (rev toks)).
Proof.
  induction toks as [|t toks IH]; [done|]. simpl.
  rewrite str_rev_append, IH, map_app. simpl.
  clear. induction (map str_rev (rev toks)) as [|x l IHl]; simpl.
  - by rewrite append_nil_r.
  - by rewrite append_assoc, IHl.
Qed.

(** Trimming keeps the first character of a text that does not start with
    white space. *)
Lemma prefix_app q p x :
  String.prefix q p = true -> String.prefix q (p ++ x) = true.
Proof.
  intros H. destruct (prefix_split q p H) as [r ->].
  rewrite append_assoc. apply prefix_append.
Qed.

Lemma find_none_existsb {A} (f : A -> bool) l :
  existsb f l = false -> List.find f l = None.
Proof.
  induction l as [|x l IH]; [done|]. simpl.
  destruct (f x); [done|]. exact IH.
Qed.

(** Nothing is removed where no token starts the text. *)
Lemma lstrip_with_none ws fuel s :
  existsb (fun w => String.prefix w s) ws = false ->
  lstrip_with ws fuel s = s.
Proof.
  intros H. destruct fuel; [done|]. cbn -[String.prefix].
  by rewrite (find_none_existsb _ _ H).
Qed.

(** What [rstrip] removes is at the end. *)
Lemma rstrip_split s : exists x, s = (rstrip s ++ x)%string.
Proof.
  unfold rstrip. change (map str_rev whitespace) with whitespace_rev.
  destruct (lstrip_with_split whitespace_rev (String.length s) (str_rev s))
    as (toks & _ & E).
  apply (f_equal str_rev) in E.
  rewrite str_rev_involutive, str_rev_append in E.
  by exists (str_rev (cat toks)).
Qed.

(** Trimming a text that does not open with white space leaves its
    beginning where it is. *)
Lemma strip_no_leading_space s :
  starts_with_space s = false -> exists x, s = (strip s ++ x)%string.
Proof.
  intros H. unfold strip, lstrip.
  rewrite lstrip_with_none by exact H. apply rstrip_split.
Qed.

(** X19.  An answer that opens with anything but white space or a bracket
    (prose, a quotation mark, a Markdown code fence, a brace) is rejected
    with the format error and the empty list, whatever follows: the
    adapter does not look for an array further inside the text. *)
Theorem analyze_rejects_leading_text
    (w : World) (image_bytes : bytes) (σ : Runtime)
    (image : Image) (response : GenerateContentResponse) (raw : string) :
  Image_open w image_bytes = Ret image ->
  generate_content w "gemini-pro-vision" prompt image = Ret response ->
  text response = Ret raw ->
  starts_with_space raw = false ->
  startswith raw "[" = false ->
  analyze_image_for_words w image_bytes σ =
    (Ret (PList []),
     extend σ [UError "AI响应格式不正确"] [analysis_call image]).
Proof.
  intros Hi Hr Ht Ha Hb.
  eapply analyze_unbracketed; try eassumption.
  destruct (strip_no_leading_space raw Ha) as [x E].
  unfold bracketed.
  destruct (startswith (strip raw) "[") eqn:Hs; [|done].
  exfalso. unfold startswith in *.
  apply (prefix_app _ _ x) in Hs. rewrite <- E in Hs. congruence.
Qed.

(** Two prefixes of one text: one is a prefix of the other. *)
Lemma prefix_comparable a b s :
  String.prefix a s = true -> String.prefix b s = true ->
  String.prefix a b = true \/ String.prefix b a = true.
Proof.
  revert a b. induction s as [|c s IH]; intros a b Ha Hb.
  - destruct a; [|done]. left. by destruct b.
  - destruct a as [|x a]; [left; by destruct b|].
    destruct b as [|y b]; [by right|].
    simpl in *.
    destruct (ascii_dec x c) as [->|]; [|done].
    destruct (ascii_dec y c) as [->|]; [|done].
    destruct (ascii_dec c c); [|done]. by apply IH.
Qed.

Lemma prefix_free_spec ws a b :
  prefix_free ws = true -> In a ws -> In b ws ->
  a <> "" /\ (String.prefix a b = true -> a = b).
Proof.
  unfold prefix_free. intros H Ha Hb.
  rewrite forallb_forall in H. specialize (H a Ha).
  apply andb_true_iff in H as [Hne H]. split.
  - intros ->. done.
  - rewrite forallb_forall in H. specialize (H b Hb). intros Hp.
    rewrite Hp in H. simpl in H. rewrite orb_false_r in H.
    by apply String.eqb_eq.
Qed.

Lemma find_token ws tok r :
  prefix_free ws = true -> In tok ws ->
  List.find (fun w => String.prefix w (tok ++ r)) ws = Some tok.
Proof.
  intros Hf Hin.
  destruct (List.find _ ws) as [w|] eqn:E.
  - apply List.find_some in E as [Hw Hp]. f_equal.
    destruct (prefix_comparable w tok _ Hp (prefix_append tok r)) as [H|H].
    + by apply (prefix_free_spec ws w tok Hf Hw Hin).
    + symmetry. by apply (prefix_free_spec ws tok w Hf Hin Hw).
  - pose proof (List.find_none _ _ E tok Hin) as H. simpl in H.
    by rewrite prefix_append in H.
Qed.

Lemma find_prefix_empty ws :
  prefix_free ws = true ->
  List.find (fun w => String.prefix w "") ws = None.
Proof.
  intros Hf. destruct (List.find _ ws) as [w|] eqn:E; [|done].
  apply List.find_some in E as [Hw Hp].
  destruct (prefix_free_spec ws w w Hf Hw Hw) as [Hne _].
  by destruct w.
Qed.

Lemma cat_length ws toks :
  prefix_free ws = true -> Forall (fun t => In t ws) toks ->
  List.length toks <= String.length (cat toks).
Proof.
  intros Hf H. induction H as [|t toks Ht _ IH]; simpl; [done|].
  rewrite length_append.
  destruct (prefix_free_spec ws t t Hf Ht Ht) as [Hne _].
  destruct t; [done|]. simpl. lia.
Qed.

(** A run of tokens in front of a text that does not start with one is
    removed whole. *)
Lemma lstrip_with_tokens ws toks rest fuel :
  prefix_free ws = true ->
  Forall (fun t => In t ws) toks ->
  List.length toks <= fuel ->
  match rest with
  | EmptyString => True
  | String a _ => is_lead ws a = false
  end ->
  lstrip_with ws fuel (cat toks ++ rest) = rest.
Proof.
  intros Hf H. revert fuel. induction H as [|t toks Ht _ IH];
    intros fuel Hfuel Hrest.
  - simpl. rewrite append_nil_l. destruct rest as [|a rest].
    + destruct fuel; [done|]. cbn -[String.prefix].
      by rewrite find_prefix_empty.
    + by apply lstrip_with_no_lead.
  - destruct fuel as [|fuel]; [simpl in Hfuel; lia|].
    simpl cat. rewrite append_assoc. cbn -[String.prefix str_drop].
    rewrite find_token by done. rewrite str_drop_append.
    apply IH; [simpl in Hfuel; lia|done].
Qed.

Lemma whitespace_prefix_free : prefix_free whitespace = true.
Proof. by vm_compute. Qed.

Lemma whitespace_rev_prefix_free : prefix_free whitespace_rev = true.
Proof. by vm_compute. Qed.

(** Trimming removes the white space around a text that neither starts
    nor ends with white space, and nothing else. *)
Lemma strip_padded pre post a mid z mid' :
  Forall (fun t => In t whitespace) pre ->
  Forall (fun t => In t whitespace) post ->
  is_lead whitespace a = false ->
  str_rev (String a mid) = String z mid' ->
  is_lead whitespace_rev z = false ->
  strip (cat pre ++ String a mid ++ cat post) = String a mid.
Proof.
  intros Hpre Hpost Ha Hrev Hz. unfold strip.
  assert (E1 : lstrip (cat pre ++ String a mid ++ cat post)
               = (String a mid ++ cat post)%string).
  { unfold lstrip. apply lstrip_with_tokens;
      [apply whitespace_prefix_free|exact Hpre| |exact Ha].
    rewrite length_append.
    pose proof (cat_length whitespace pre whitespace_prefix_free Hpre). lia. }
  rewrite E1. unfold rstrip.
  rewrite str_rev_append, str_rev_cat, Hrev.
  rewrite lstrip_with_tokens;
    [|apply whitespace_rev_prefix_free| | |exact Hz].
  - rewrite <- Hrev. apply str_rev_involutive.
  - apply Forall_forall. intros t Hin.
    apply list_elem_of_In, in_map_iff in Hin as (u & <- & Hu).
    apply in_map. rewrite Forall_forall in Hpost.
    apply Hpost. apply list_elem_of_In. apply in_rev in Hu. exact Hu.
  - rewrite length_map, length_rev, length_append.
    pose proof (cat_length whitespace post whitespace_prefix_free Hpost). lia.
Qed.

Lemma strip_blank s : blank s -> strip s = "".
Proof.
  intros (toks & Ht & ->). unfold strip, lstrip.
  assert (E : lstrip_with whitespace (String.length (cat toks))
                (cat toks ++ "") = "").
  { apply lstrip_with_tokens;
      [apply whitespace_prefix_free|exact Ht| |done].
    by apply (cat_length whitespace toks whitespace_prefix_free). }
  rewrite append_nil_r in E. by rewrite E.
Qed.

(** X20.  White space around the array does not matter: when the model's
    answer is a bracketed text with any white space before and after it
    (spaces, tabs, newlines, also the Unicode spaces), the adapter parses
    the bracketed text itself and returns what [json.loads] makes of it,
    with no error. *)
Theorem analyze_ignores_padding
    (w : World) (image_bytes : bytes) (σ : Runtime)
    (image : Image) (response : GenerateContentResponse)
    (pre post : list string) (body : string) (v : pyval) :
  Image_open w image_bytes = Ret image ->
  generate_content w "gemini-pro-vision" prompt image = Ret response ->
  Forall (fun t => In t whitespace) pre ->
  Forall (fun t => In t whitespace) post ->
  text response = Ret (cat pre ++ ("[" ++ body ++ "]") ++ cat post) ->
  json_loads w ("[" ++ body ++ "]") = Ret v ->
  analyze_image_for_words w image_bytes σ =
    (Ret v, extend σ [] [analysis_call image]).
Proof.
  intros Hi Hr Hpre Hpost Ht Hj.
  assert (Hrev : str_rev ("[" ++ body ++ "]")
                 = String "]" (str_rev ("[" ++ body))).
  { change ("[" ++ body ++ "]")%string with (String "[" (body ++ "]")).
    change (String "[" (body ++ "]")) with (("[" ++ body) ++ "]")%string at 1.
    rewrite str_rev_append. reflexivity. }
  assert (E : strip (cat pre ++ ("[" ++ body ++ "]") ++ cat post)
              = ("[" ++ body ++ "]")%string).
  { change ("[" ++ body ++ "]")%string with (String "[" (body ++ "]")) in *.
    eapply strip_padded; try eassumption; by vm_compute. }
  eapply analyze_parsed; try eassumption; rewrite E; [|done].
  unfold bracketed, startswith, endswith. rewrite Hrev.
  rewrite (prefix_append "[" (body ++ "]")).
  change (String.prefix (str_rev "]") (String "]" (str_rev ("[" ++ body))))
    with (String.prefix "]" ("]" ++ str_rev ("[" ++ body))).
  by rewrite prefix_append.
Qed.

(** X21.  An answer that is empty or made of white space only is trimmed
    to the empty text and rejected with the format error and the empty
    list. *)
Theorem analyze_rejects_blank_answer
    (w : World) (image_bytes : bytes) (σ : Runtime)
    (image : Image) (response : GenerateContentResponse) (raw : string) :
  Image_open w image_bytes = Ret image ->
  generate_content w "gemini-pro-vision" prompt image = Ret response ->
  text response = Ret raw ->
  blank raw ->
  analyze_image_for_words w image_bytes σ =
    (Ret (PList []),
     extend σ [UError "AI响应格式不正确"] [analysis_call image]).
Proof.
  intros Hi Hr Ht Hb. eapply analyze_unbracketed; try eassumption.
  by rewrite (strip_blank raw Hb).
Qed.


Lemma in_whitespace t :
  existsb (String.eqb t) whitespace = true -> In t whitespace.
Proof.
  intros H. apply existsb_exists in H as (u & Hu & E).
  by apply String.eqb_eq in E as ->.
Qed.

(** Trimming a text that does not end with white space leaves its end
    where it is. *)
Lemma strip_no_trailing_space s :
  ends_with_space s = false ->
  exists x, str_rev s = (str_rev (strip s) ++ x)%string.
Proof.
  intros H. unfold strip, lstrip.
  destruct (lstrip_with_split whitespace (String.length s) s)
    as (toks & _ & E).
  set (r1 := lstrip_with whitespace (String.length s) s) in *.
  pose proof (f_equal str_rev E) as E'. rewrite str_rev_append in E'.
  assert (Hr : rstrip r1 = r1).
  { unfold rstrip. rewrite lstrip_with_none; [apply str_rev_involutive|].
    apply not_true_is_false. intros Hex.
    apply existsb_exists in Hex as (t & Hin & Hp).
    apply in_map_iff in Hin as (u & <- & Hu).
    assert (ends_with_space s = true); [|congruence].
    unfold ends_with_space. apply existsb_exists. exists u.
    split; [done|]. unfold endswith. rewrite E'. by apply prefix_app. }
  rewrite Hr. by exists (str_rev (cat toks)).
Qed.

(** X23.  An answer that closes with anything but white space or a
    bracket (a remark after the array, a full stop, a code fence) is
    rejected with the format error and the empty list, even when it
    starts with a bracket. *)
Theorem analyze_rejects_trailing_text
    (w : World) (image_bytes : bytes) (σ : Runtime)
    (image : Image) (response : GenerateContentResponse) (raw : string) :
  Image_open w image_bytes = Ret image ->
  generate_content w "gemini-pro-vision" prompt image = Ret response ->
  text response = Ret raw ->
  ends_with_space raw = false ->
  endswith raw "]" = false ->
  analyze_image_for_words w image_bytes σ =
    (Ret (PList []),
     extend σ [UError "AI响应格式不正确"] [analysis_call image]).
Proof.
  intros Hi Hr Ht Hz Hb.
  eapply analyze_unbracketed; try eassumption.
  destruct (strip_no_trailing_space raw Hz) as [x E].
  unfold bracketed.
  destruct (endswith (strip raw) "]") eqn:Hs; [|apply andb_false_r].
  exfalso. unfold endswith in *.
  apply (prefix_app _ _ x) in Hs. rewrite <- E in Hs. congruence.
Qed.

(** X24.  With nothing to play ([audio_filename] is [None] or empty, or
    the file it names does not exist) the playback block does nothing at
    all: no player, no error, no file touched, and the page goes on. *)
Theorem audio_player_idle (σ : Runtime) :
  nothing_to_play σ -> audio_player σ = (Ret tt, σ).
Proof.
  unfold nothing_to_play. intros H.
  destruct (session_state σ !! "audio_filename") as [v|] eqn:Hs; [|done].
  destruct v as [| | | |path| | | |]; try done.
  - by apply audio_player_none.
  - destruct H as [->|H].
    + unfold audio_player. unfold bind at 1.
      rewrite (ss_get_run _ _ _ Hs). by unfold bind at 1.
    + by apply (audio_player_absent σ path).
Qed.

(** X22.  Running the initialisation block a second time changes nothing:
    every rerun of the script starts from the session as the last run
    left it. *)
Theorem init_session_state_twice (σ : Runtime) :
  init_session_state (snd (init_session_state σ)) = init_session_state σ.
Proof. apply init_session_state_idempotent. Qed.

(** * The properties on concrete sessions *)

Import Demo.

Lemma demo_world_raises_Exceptions : raises_Exceptions world.
Proof.
  split; simpl.
  - intros b. by destruct (starts_jpeg b).
  - intros m q i. unfold table_model.
    repeat match goal with |- context [if ?c then _ else _] => destruct c end;
      done.
  - intros m q i r. unfold table_model.
    repeat match goal with |- context [if ?c then _ else _] => destruct c end;
      by intros [= <-].
  - intros s. unfold table_loads.
    repeat match goal with |- context [if ?c then _ else _] => destruct c end;
      done.
  - done.
  - intros i v a. by destruct (_ =? _)%string.
Qed.

Lemma demo_world_json_bracket_is_list : json_bracket_is_list world.
Proof.
  intros s v. simpl. unfold table_loads.
  destruct (s =? mug_key_text)%string; [by intros [= <-]|].
  destruct (s =? key_text)%string; [by intros [= <-]|].
  destruct (s =? words_text)%string; [by intros [= <-]|].
  destruct (s =? dict_text)%string eqn:E; [|done].
  apply String.eqb_eq in E as ->. intros _ H. by vm_compute in H.
Qed.

(** The session after photo A was captured and analysed. *)
Lemma session_after_A :
  session_state
    (snd (interact world (capture_and_analyze photo_A) fresh_session))
    !! "analyzed_objects" = Some (PList [mug; key]).
Proof. by vm_compute. Qed.

(** C1 fails as stated: photo A is captured and analysed, then photo B is
    captured and not analysed.  [current_image] is B, and
    [analyzed_objects] still holds the two objects found in A; the page
    drawn for B shows their rows. *)
Lemma new_photo_shows_previous_analysis :
  let σA := snd (interact world (capture_and_analyze photo_A) fresh_session) in
  let σB := snd (interact world (capture photo_B) σA) in
  session_state σA !! "analyzed_objects" = Some (PList [mug; key]) /\
  session_state σB !! "current_image" = Some (PUploadedFile photo_B) /\
  session_state σB !! "analyzed_objects" = Some (PList [mug; key]) /\
  session_state σB !! "analyzed_objects" <> Some (PList []) /\
  button_keys (view σB) = ["pronounce_mug"; "pronounce_key"].
Proof. vm_compute. repeat split; discriminate. Qed.

Lemma new_photo_keeps_analysis_until_analyzed_witness :
  let σA := snd (interact world (capture_and_analyze photo_A) fresh_session) in
  session_state (snd (page world (capture photo_B) σA)) !! "current_image"
    = Some (PUploadedFile photo_B) /\
  session_state (snd (page world (capture photo_B) σA)) !! "analyzed_objects"
    = Some (PList [mug; key]).
Proof.
  intros σA.
  pose proof (new_photo_keeps_analysis_until_analyzed
                world (capture photo_B) σA photo_B eq_refl) as H.
  subst σA. rewrite session_after_A in H. exact H.
Defined.

(** C2 fails as stated: the first run plays the file and deletes it; the
    second run, with [audio_filename] still naming the same path, draws no
    error (and no audio): the playback block is skipped. *)
Lemma second_playback_is_silent :
  let σ1 := snd (run_script world idle session_with_audio) in
  let σ2 := snd (run_script world idle σ1) in
  List.filter is_audio (view σ1) = [UAudio (PBytes reply_wav) "audio/wav"] /\
  files σ1 !! reply_path = None /\
  session_state σ2 !! "audio_filename" = Some (PStr reply_path) /\
  errors (view σ2) = [] /\
  List.filter is_audio (view σ2) = [].
Proof. vm_compute. repeat split. Qed.

Lemma audio_player_plays_then_deletes_witness :
  let σ1 :=
    with_files
      (extend session_with_audio
         [UAudio (PBytes reply_wav) "audio/wav"] []) ∅ in
  audio_player session_with_audio = (Ret tt, σ1) /\
  files σ1 !! reply_path = None /\ audio_player σ1 = (Ret tt, σ1).
Proof.
  exact (audio_player_plays_then_deletes session_with_audio reply_path
           {| f_data := reply_wav; f_readable := true; f_removable := true |}
           eq_refl ltac:(discriminate) eq_refl).
Defined.

Lemma analyze_returns_records_in_order_witness :
  analyze_image_for_words world photo_A fresh_session =
    (Ret (PList [mug; key]),
     extend fresh_session []
       [GenerateContent "gemini-pro-vision" prompt {| image_fp := photo_A |}]).
Proof.
  apply (analyze_returns_records_in_order world photo_A fresh_session
           {| image_fp := photo_A |}
           {| text := Ret (" " ++ mug_key_text ++ str_of_codes [10]) |}
           (" " ++ mug_key_text ++ str_of_codes [10]) [mug; key]);
    try (vm_compute; reflexivity).
  repeat constructor.
Defined.

Lemma analyze_returns_parsed_value_unchecked_witness :
  fst (analyze_image_for_words world photo_C fresh_session)
    = Ret (PList [PStr "mug"; PInt 7]) /\
  view (snd (analyze_image_for_words world photo_C fresh_session)) = [].
Proof.
  apply (analyze_returns_parsed_value_unchecked world photo_C fresh_session
           {| image_fp := photo_C |} {| text := Ret words_text |} words_text);
    vm_compute; reflexivity.
Defined.

Lemma prose_is_malformed : malformed_response world photo_D.
Proof.
  exists {| image_fp := photo_D |}, {| text := Ret prose_text |}, prose_text.
  repeat split; try (vm_compute; reflexivity). left. vm_compute. reflexivity.
Defined.

Lemma broken_is_malformed : malformed_response world photo_E.
Proof.
  exists {| image_fp := photo_E |}, {| text := Ret broken_text |}, broken_text.
  repeat split; try (vm_compute; reflexivity). right.
  split; [vm_compute; reflexivity|].
  exists (mk_exn JSONDecodeError "Expecting value").
  split; vm_compute; reflexivity.
Defined.

Lemma analyze_malformed_repeatedly_witness :
  exists evs sent,
    analyze_each [(world, photo_D); (world, photo_E); (world, photo_D)]
      fresh_session =
      (Ret [PList []; PList []; PList []], extend fresh_session evs sent) /\
    length evs = 3 /\
    Forall (fun ev => is_error ev = true) evs.
Proof.
  apply (analyze_malformed_repeatedly
           [(world, photo_D); (world, photo_E); (world, photo_D)]
           fresh_session).
  repeat constructor; simpl;
    first [exact prose_is_malformed | exact broken_is_malformed].
Defined.

Lemma not_a_photo_fails : analysis_failure world not_a_photo.
Proof. by eapply decode_failure. Qed.

Lemma analyze_never_raises_witness :
  (exists v evs sent,
     analyze_image_for_words world not_a_photo fresh_session
       = (Ret v, extend fresh_session evs sent) /\
     is_list v = true) /\
  (exists msg sent,
     analyze_image_for_words world not_a_photo fresh_session =
       (Ret (PList []), extend fresh_session [UError msg] sent)).
Proof.
  destruct (analyze_never_raises world not_a_photo fresh_session
              demo_world_raises_Exceptions demo_world_json_bracket_is_list)
    as [Hret Hfail].
  exact (conj Hret (Hfail not_a_photo_fails)).
Defined.

Lemma get_tts_audio_failure_witness :
  fst (get_tts_audio world (PStr "key") fresh_session) = Ret PNone /\
  view (snd (get_tts_audio world (PStr "key") fresh_session)) =
    [UError "文本转语音失败: 503 unavailable"] /\
  session_state (snd (get_tts_audio world (PStr "key") fresh_session)) = ∅ /\
  files (snd (get_tts_audio world (PStr "key") fresh_session)) = ∅.
Proof.
  exact (get_tts_audio_failure world "key" fresh_session
           (mk_exn OtherException "503 unavailable")
           eq_refl (or_intror (conj eq_refl eq_refl))).
Defined.

(** A batch in which the model named the mug twice: the button of the
    second mug is refused with the key of the first. *)
Lemma pronounce_keys_follow_names_witness :
  let σ :=
    with_session fresh_session
      {[ "analyzed_objects" :=
           PList [mug; key; object_value "mug" "杯子"] ]} in
  exists evs sent,
    snd (analysis_results_area world idle σ) = extend σ evs sent /\
    fst (analysis_results_area world idle σ) =
      Raise (duplicate_key "pronounce_mug") /\
    button_keys evs = ["pronounce_mug"; "pronounce_key"].
Proof.
  intros σ.
  destruct (pronounce_keys_follow_names world idle σ
              [mug; key; object_value "mug" "杯子"])
    as (_ & evs & sent & E & _ & Hdup).
  - reflexivity.
  - repeat constructor.
  - left. reflexivity.
  - reflexivity.
  - exists evs, sent. split; [exact E|].
    apply (Hdup ["mug"; "key"] "mug" []).
    + reflexivity.
    + apply (bool_decide_unpack _). vm_compute. reflexivity.
    + constructor.
Defined.

(** * The further properties on concrete sessions *)

Import Cases.

Lemma get_tts_audio_success_witness :
  get_tts_audio world (PStr "mug") fresh_session =
    (Ret (PBytes mp3_of_mug), extend fresh_session [] [speech_call "mug"]).
Proof.
  exact (get_tts_audio_success world "mug" fresh_session
           {| audio_content := mp3_of_mug |} eq_refl eq_refl).
Defined.

Lemma analyze_propagates_interrupt_witness :
  analyze_image_for_words interrupted_world photo_A fresh_session =
    (Raise (mk_exn KeyboardInterrupt ""),
     extend fresh_session [] [analysis_call {| image_fp := photo_A |}]).
Proof.
  exact (analyze_propagates_interrupt interrupted_world photo_A fresh_session
           {| image_fp := photo_A |} (mk_exn KeyboardInterrupt "")
           eq_refl eq_refl eq_refl).
Defined.

Lemma pronounce_plays_audio_witness :
  object_row world (press "pronounce_mug") mug fresh_session =
    (Ret tt,
     extend fresh_session
       (row_events_before "mug" "马克杯" ++
        [UAudio (PBytes mp3_of_mug) "audio/mp3"; UMarkdown "---"])
       [speech_call "mug"]).
Proof.
  apply (pronounce_plays_audio world (press "pronounce_mug") mug
           "mug" "马克杯" fresh_session {| audio_content := mp3_of_mug |});
    try reflexivity.
  discriminate.
Defined.

Lemma pronounce_empty_audio_is_an_error_witness :
  object_row silent_world (press "pronounce_mug") mug fresh_session =
    (Ret tt,
     extend fresh_session
       (row_events_before "mug" "马克杯" ++
        [UError "无法生成 mug 的发音"; UMarkdown "---"])
       [speech_call "mug"]).
Proof.
  exact (pronounce_empty_audio_is_an_error silent_world
           (press "pronounce_mug") mug "mug" "马克杯" fresh_session
           {| audio_content := [] |}
           eq_refl eq_refl eq_refl eq_refl eq_refl eq_refl).
Defined.

Lemma pronounce_failure_shows_two_errors_witness :
  object_row world (press "pronounce_key") key fresh_session =
    (Ret tt,
     extend fresh_session
       (row_events_before "key" "钥匙" ++
        [UError "文本转语音失败: 503 unavailable";
         UError "无法生成 key 的发音"; UMarkdown "---"])
       [speech_call "key"]).
Proof.
  exact (pronounce_failure_shows_two_errors world
           (press "pronounce_key") key "key" "钥匙" fresh_session
           (mk_exn OtherException "503 unavailable")
           eq_refl eq_refl eq_refl eq_refl eq_refl eq_refl).
Defined.

Lemma results_area_stops_at_bad_record_witness :
  exists evs sent,
    analysis_results_area world idle session_with_bad_record =
      (Raise (mk_exn TypeError "subscript"),
       extend session_with_bad_record evs sent) /\
    button_keys evs = ["pronounce_mug"].
Proof.
  apply (results_area_stops_at_bad_record world idle session_with_bad_record
           [mug] (PStr "lamp") [key]).
  - reflexivity.
  - repeat constructor.
  - apply (bool_decide_unpack _). vm_compute. reflexivity.
  - reflexivity.
  - left. reflexivity.
  - reflexivity.
Defined.

Lemma page_without_photo_keeps_session_witness :
  session_state (snd (page world idle session_after_A))
    = session_state session_after_A ∪ default_state.
Proof.
  exact (page_without_photo_keeps_session world idle session_after_A eq_refl).
Defined.

Lemma page_writes_two_fields_only_witness :
  session_state (snd (page world send_hello fresh_session)) !! "conversation"
    = Some (PList []).
Proof.
  exact (page_writes_two_fields_only world send_hello fresh_session
           "conversation" ltac:(discriminate) ltac:(discriminate)).
Defined.

Lemma fresh_session_quiet : quiet (session_state fresh_session).
Proof. unfold quiet. apply Forall_forall. intros field _. by left. Qed.

Lemma quiet_session_stays_quiet_witness :
  quiet (session_state
           (interact_all world
              [capture_and_analyze photo_A; send_hello; capture photo_B; idle]
              fresh_session)) /\
  files (interact_all world
           [capture_and_analyze photo_A; send_hello; capture photo_B; idle]
           fresh_session) = ∅.
Proof.
  exact (quiet_session_stays_quiet world
           [capture_and_analyze photo_A; send_hello; capture photo_B; idle]
           fresh_session fresh_session_quiet).
Defined.

Lemma send_hello_same_as_capture : same_live_inputs send_hello (capture photo_A).
Proof.
  split; [reflexivity|]. intros k _ _ Hk.
  change (String.eqb "Send to AI" k = false).
  apply String.eqb_neq. congruence.
Qed.

Lemma recording_and_send_controls_are_inert_witness :
  page world send_hello fresh_session
    = page world (capture photo_A) fresh_session.
Proof.
  exact (recording_and_send_controls_are_inert world send_hello
           (capture photo_A) fresh_session send_hello_same_as_capture).
Defined.

Lemma analyze_press_ends_in_rerun_witness :
  page world (capture_and_analyze photo_B) session_after_A =
    (Raise rerun_request,
     mk_runtime
       (analysed_session (session_state session_after_A) photo_B (PList [key]))
       (files session_after_A)
       (view session_after_A ++ page_top photo_B ++
        view (snd (analysis world photo_B)))
       (remote_calls session_after_A ++
        remote_calls (snd (analysis world photo_B)))).
Proof.
  exact (analyze_press_ends_in_rerun world (capture_and_analyze photo_B)
           session_after_A photo_B (PList [key]) eq_refl eq_refl eq_refl).
Defined.

Lemma chat_history_draws_messages_in_order_witness :
  chat_history session_with_chat =
    (Ret tt,
     extend session_with_chat
       [ UMarkdown chat_style;
         UChatMessage (PStr "user"); UWrite (PStr "hello");
         UChatMessage (PStr "assistant"); UWrite (PStr "welcome") ] []).
Proof.
  apply (chat_history_draws_messages_in_order session_with_chat
           [hello; welcome]).
  - reflexivity.
  - repeat constructor.
Defined.

Lemma coach_feedback_writes_entries_in_order_witness :
  coach_feedback session_with_feedback =
    (Ret tt,
     extend session_with_feedback
       [ USubheader "Coach Feedback"; UMarkdown feedback_style;
         UWrite (PStr "good"); UWrite (PStr "slower") ] []).
Proof.
  exact (coach_feedback_writes_entries_in_order session_with_feedback
           [PStr "good"; PStr "slower"] eq_refl).
Defined.

Lemma analyze_interaction_shows_rows_witness :
  interact world (capture_and_analyze photo_B) fresh_session =
    (Ret tt,
     mk_runtime (analysed_session ∅ photo_B (PList [key])) ∅
       (page_top photo_B ++ results_events [key] ++ page_bottom)
       (remote_calls (snd (analysis world photo_B)))).
Proof.
  apply (analyze_interaction_shows_rows world (capture_and_analyze photo_B)
           fresh_session photo_B [key] "k").
  - reflexivity.
  - reflexivity.
  - reflexivity.
  - exact fresh_session_quiet.
  - reflexivity.
  - repeat constructor.
  - apply (bool_decide_unpack _). vm_compute. reflexivity.
Defined.

Lemma failed_analysis_leaves_no_error_on_page_witness :
  errors (view (snd (interact world (capture_and_analyze photo_D)
                       fresh_session))) = [] /\
  view (snd (interact world (capture_and_analyze photo_D) fresh_session)) =
    (page_top photo_D ++
     [ UMarkdown "### Analysis Results";
       UInfo "点击 'Analyze Photo for Words' 按钮开始分析图片" ] ++
     page_bottom)%list /\
  session_state (snd (interact world (capture_and_analyze photo_D)
                        fresh_session)) !! "analyzed_objects"
    = Some (PList []).
Proof.
  apply (failed_analysis_leaves_no_error_on_page world
           (capture_and_analyze photo_D) fresh_session photo_D
           "AI响应格式不正确"
           [analysis_call {| image_fp := photo_D |}] "k").
  - reflexivity.
  - reflexivity.
  - reflexivity.
  - exact fresh_session_quiet.
  - reflexivity.
Defined.

Lemma analyze_rejects_leading_text_witness :
  analyze_image_for_words quote_world photo_A fresh_session =
    (Ret (PList []),
     extend fresh_session [UError "AI响应格式不正确"]
       [analysis_call {| image_fp := photo_A |}]).
Proof.
  exact (analyze_rejects_leading_text quote_world photo_A fresh_session
           {| image_fp := photo_A |} {| text := Ret quote_text |} quote_text
           eq_refl eq_refl eq_refl eq_refl eq_refl).
Defined.

Lemma analyze_ignores_padding_witness :
  analyze_image_for_words world photo_A fresh_session =
    (Ret (PList [mug; key]),
     extend fresh_session [] [analysis_call {| image_fp := photo_A |}]).
Proof.
  apply (analyze_ignores_padding world photo_A fresh_session
           {| image_fp := photo_A |}
           {| text := Ret (" " ++ mug_key_text ++ str_of_codes [10]) |}
           [" "] [str_of_codes [10]]
           (object_text "mug" "马克杯" ++ ", " ++ object_text "key" "钥匙"));
    try reflexivity.
  - apply Forall_cons_2; [by apply in_whitespace|apply Forall_nil_2].
  - apply Forall_cons_2; [by apply in_whitespace|apply Forall_nil_2].
Defined.

Lemma blank_text_is_blank : blank blank_text.
Proof.
  exists [str_of_codes [10]; " "; str_of_codes [9]; str_of_codes [227; 128; 128]].
  split; [|reflexivity].
  repeat (apply Forall_cons_2; [by apply in_whitespace|]).
  apply Forall_nil_2.
Qed.

Lemma analyze_rejects_blank_answer_witness :
  analyze_image_for_words blank_world photo_A fresh_session =
    (Ret (PList []),
     extend fresh_session [UError "AI响应格式不正确"]
       [analysis_call {| image_fp := photo_A |}]).
Proof.
  exact (analyze_rejects_blank_answer blank_world photo_A fresh_session
           {| image_fp := photo_A |} {| text := Ret blank_text |} blank_text
           eq_refl eq_refl eq_refl blank_text_is_blank).
Defined.

Lemma analyze_rejects_trailing_text_witness :
  analyze_image_for_words remark_world photo_A fresh_session =
    (Ret (PList []),
     extend fresh_session [UError "AI响应格式不正确"]
       [analysis_call {| image_fp := photo_A |}]).
Proof.
  exact (analyze_rejects_trailing_text remark_world photo_A fresh_session
           {| image_fp := photo_A |} {| text := Ret remark_text |} remark_text
           eq_refl eq_refl eq_refl eq_refl eq_refl).
Defined.

Lemma audio_player_idle_witness :
  audio_player (snd (init_session_state fresh_session))
    = (Ret tt, snd (init_session_state fresh_session)).
Proof.
  apply (audio_player_idle (snd (init_session_state fresh_session))).
  exact I.
Defined.
